(** * publishing_queue.hpp: a bounded hand-off queue feeding a flow publisher

    Shallow embedding of [libcaf_core/caf/async/publishing_queue.hpp]:

    - [caf::async::publishing_queue<T>::queue]      -> module [Queue]
    - [caf::async::publishing_queue<T>]             -> module [PublishingQueue]
    - [caf::detail::publishing_queue_backend<T>]    -> module [Backend]
    - [caf::async::make_publishing_queue]           -> [make_publishing_queue]

    Every member function holds [queue::mtx] for the whole time it touches
    [queue::buf], so each call (each loop iteration of the blocking [push])
    is one atomic transition of the shared state; the mutex itself is not a
    component of the model.  [size_t] values are only compared with each
    other and passed to [std::min]; no arithmetic is done on them, so they
    are natural numbers here. *)

From Stdlib Require Import List Arith Bool Lia.
Import ListNotations.

Set Implicit Arguments.

(** ** Outcomes of calls *)

(** A call guarded by a contract check either completes or trips the check. *)
Inductive checked (A : Type) : Type :=
| Done (a : A)
| AssertionFailed.

Arguments Done {A} a.
Arguments AssertionFailed {A}.

(** A call that may suspend its thread either returns, or is parked in
    [cv.wait(guard)] with the mutex released. *)
Inductive blocking (A : Type) : Type :=
| Returned (a : A)
| CvWait.

Arguments Returned {A} a.
Arguments CvWait {A}.

(** Building an object either yields it, or [std::vector::reserve] threw
    [std::length_error]. *)
Inductive built (A : Type) : Type :=
| Built (a : A)
| LengthError.

Arguments Built {A} a.
Arguments LengthError {A}.

(** Modelled from the spec: the macro [CAF_ASSERT] is declared outside this
    file (caf/config.hpp); the spec calls a violated [n > 0] "a contract
    violation caught at the call boundary", so a false condition ends the
    call with [AssertionFailed]. *)
Definition CAF_ASSERT {A : Type} (cond : bool) (rest : checked A) : checked A :=
  if cond then rest else AssertionFailed.

(** The loop [for (;;) { ...; cv.wait(guard); }]: the thread runs [call];
    when that parks in [cv.wait] the other threads act on the shared state
    (one entry of [wakeups] per wake-up, spurious ones being the identity),
    then the loop body runs again on what they left.  [None]: the thread is
    still parked when the schedule ends. *)
Fixpoint await {S A : Type} (call : S -> blocking (A * S))
         (wakeups : list (S -> S)) (s : S) : option (A * S) :=
  match call s with
  | Returned r => Some r
  | CvWait =>
      match wakeups with
      | [] => None
      | w :: rest => await call rest (w s)
      end
  end.

(** The state a parked thread finds after its first [k] wake-ups. *)
Definition after_wakeups {S : Type} (wakeups : list (S -> S)) (k : nat) (s : S) : S :=
  fold_left (fun s' w => w s') (firstn k wakeups) s.

(** [std::condition_variable], seen through the number of [notify_all]
    broadcasts issued on it. *)
Definition condition_variable : Type := nat.
Definition notify_all (cv : condition_variable) : condition_variable := S cv.

(** [caf::async::notifiable] (declared in caf/async/notifiable.hpp), seen
    through the number of [notify_event] calls made on the handle. *)
Definition notifiable : Type := nat.
Definition notify_event (hdl : notifiable) : notifiable := S hdl.

(** ** [publishing_queue<T>::queue] *)

Module Queue.
Section Queue.
Context {T : Type}.

Record queue : Type := mk_queue {
  capacity : nat;
  buf : list T;
  cv : condition_variable
}.

(** [explicit queue(size_t capacity)], lines 30-32: stores the capacity,
    then [buf.reserve(capacity)], which throws [std::length_error] when the
    capacity exceeds [buf.max_size()]; that limit is fixed by the standard
    library and the element type, and is a parameter here.  No other check
    is made on [capacity].  Running out of memory is outside the model. *)
Definition queue_ctor (max_size capacity : nat) : built queue :=
  if max_size <? capacity then LengthError
  else Built {| capacity := capacity; buf := []; cv := 0 |}.

Definition empty (b : list T) : bool :=
  match b with
  | [] => true
  | _ :: _ => false
  end.

Definition emplace_back (q : queue) (value : T) : queue :=
  {| capacity := capacity q; buf := buf q ++ [value]; cv := cv q |}.

(** [std::pair<bool, bool> try_push(Value&&)], lines 34-46. *)
Definition try_push (q : queue) (value : T) : (bool * bool) * queue :=
  if empty (buf q) then ((true, true), emplace_back q value)
  else if length (buf q) <? capacity q then ((true, false), emplace_back q value)
  else ((false, false), q).

(** [bool push(Value&&)], lines 48-61: one pass through the body of the
    [for (;;)] loop.  Falling through both tests reaches [cv.wait(guard)];
    the next pass is this same function run by [await] after a wake-up. *)
Definition push (q : queue) (value : T) : blocking (bool * queue) :=
  if empty (buf q) then Returned (true, emplace_back q value)
  else if length (buf q) <? capacity q then Returned (false, emplace_back q value)
  else CvWait.

(** The whole blocking call under a wake-up schedule. *)
Definition push_blocking (wakeups : list (queue -> queue)) (q : queue) (value : T)
  : option (bool * queue) :=
  await (fun q' => push q' value) wakeups q.

(** The length bound of the buffer. *)
Definition within_capacity (q : queue) : Prop :=
  length (buf q) <= capacity q.

(** The bound together with a positive capacity. *)
Definition bounded (q : queue) : Prop :=
  1 <= capacity q /\ within_capacity q.
End Queue.
Arguments queue T : clear implicits.
End Queue.

(** ** The objects wired together by [make_publishing_queue] *)

(** Both the [publishing_queue] (member [queue_], with [notify_hdl_]) and
    the [publishing_queue_backend] (member [queue_], on top of its base
    class sub-object) hold a [shared_ptr] to one and the same [queue]; the
    record keeps that single queue once, so a change made through either
    side is seen by the other. *)
Record pipeline (T base : Type) : Type := mk_pipeline {
  queue_ : Queue.queue T;
  notify_hdl_ : notifiable;
  super : base
}.

Arguments mk_pipeline {T base} _ _ _.
Arguments queue_ {T base} _.
Arguments notify_hdl_ {T base} _.
Arguments super {T base} _.

(** ** [publishing_queue<T>] *)

Module PublishingQueue.
Section PublishingQueue.
Context {T base : Type}.

(** [bool try_push(T value)], lines 73-78. *)
Definition try_push (p : pipeline T base) (value : T) : bool * pipeline T base :=
  let '((added, do_notify), q) := Queue.try_push (queue_ p) value in
  let hdl := if do_notify then notify_event (notify_hdl_ p) else notify_hdl_ p in
  (added, {| queue_ := q; notify_hdl_ := hdl; super := super p |}).

(** [void push(T value)], lines 82-86.  While [queue_->push] is parked the
    call is parked; once it returns, the notification is sent if asked. *)
Definition push (p : pipeline T base) (value : T) : blocking (unit * pipeline T base) :=
  match Queue.push (queue_ p) value with
  | CvWait => CvWait
  | Returned (do_notify, q) =>
      let hdl := if do_notify then notify_event (notify_hdl_ p) else notify_hdl_ p in
      Returned (tt, {| queue_ := q; notify_hdl_ := hdl; super := super p |})
  end.

Definition push_blocking (wakeups : list (pipeline T base -> pipeline T base))
           (p : pipeline T base) (value : T) : option (unit * pipeline T base) :=
  await (fun p' => push p' value) wakeups p.
End PublishingQueue.
End PublishingQueue.

(** ** [publishing_queue_backend<T>] *)

Module Backend.
Section Backend.
Context {T error observer base : Type}.

Definition state : Type := pipeline T base.

(** What the backend uses of its base class
    [flow::buffered_observable_impl<T>] (declared in
    caf/flow/observable.hpp).  The base class reaches the queue only
    through the virtual functions [pull] and [done] of the derived class,
    which it receives here as arguments. *)
Class buffered_observable_impl : Type := {
  super_done : base -> bool;
  append_to_buf : list T -> base -> base;
  super_try_push :
    (nat -> state -> checked state) -> (state -> bool) -> state -> checked state;
  super_shutdown : (state -> bool) -> state -> state;
  super_abort : error -> base -> base;
  super_on_request :
    (nat -> state -> checked state) -> (state -> bool) ->
    observer -> nat -> state -> checked state
}.

Context {impl : buffered_observable_impl}.

(** [bool done() const noexcept], lines 133-140. *)
Definition done (p : state) : bool :=
  if super_done (super p) then Queue.empty (Queue.buf (queue_ p))
  else false.

(** [void pull(size_t n)], lines 143-152. *)
Definition pull (n : nat) (p : state) : checked state :=
  CAF_ASSERT (0 <? n)
    (let src_buf := Queue.buf (queue_ p) in
     let m := Nat.min n (length src_buf) in
     if 0 <? m then
       Done {| queue_ := {| Queue.capacity := Queue.capacity (queue_ p);
                            Queue.buf := skipn m src_buf;
                            Queue.cv := notify_all (Queue.cv (queue_ p)) |};
               notify_hdl_ := notify_hdl_ p;
               super := append_to_buf (firstn m src_buf) (super p) |}
     else Done p).

(** [void on_event()], lines 116-118. *)
Definition on_event (p : state) : checked state :=
  super_try_push pull done p.

(** [void on_close()], lines 120-123. *)
Definition on_close (p : state) : checked state :=
  match super_try_push pull done p with
  | Done p' => Done (super_shutdown done p')
  | AssertionFailed => AssertionFailed
  end.

(** [void on_abort(const error& reason)], lines 125-127. *)
Definition on_abort (reason : error) (p : state) : state :=
  {| queue_ := queue_ p;
     notify_hdl_ := notify_hdl_ p;
     super := super_abort reason (super p) |}.

(** [void on_request(flow::observer_base* sink, size_t n)], lines 129-131. *)
Definition on_request (sink : observer) (n : nat) (p : state) : checked state :=
  super_on_request pull done sink n p.
End Backend.
Arguments buffered_observable_impl : clear implicits.
End Backend.

(** [make_publishing_queue(ctx, capacity)], lines 171-184: one queue, one
    backend built on it, one handle on the same queue.  [super0] is the base
    class sub-object as [super(ctx, defaults::flow::batch_size)] leaves it;
    [max_size] is the limit of the queue's vector. *)
Definition make_publishing_queue {T base : Type} (max_size : nat) (super0 : base)
           (capacity : nat) : built (pipeline T base) :=
  match Queue.queue_ctor max_size capacity with
  | Built queue => Built {| queue_ := queue; notify_hdl_ := 0; super := super0 |}
  | LengthError => LengthError
  end.

(** ** The reactive base, from its description *)

Module FlowBase.
Section FlowBase.
Context {T error observer : Type}.

(** Modelled from the spec: the states of the adapter's state machine
    ("Active", "Draining", "Terminal-Completed", "Terminal-Aborted"); the
    class [flow::buffered_observable_impl] itself is not part of this
    file. *)
Inductive lifecycle : Type :=
| Active
| Draining
| Completed
| Aborted (reason : error).

(** Modelled from the spec: the state "owned by the external reactive
    base": the outstanding request count, the outgoing staging buffer and
    the terminal/error flag; [delivered] records what was emitted to the
    downstream observer. *)
Record base : Type := mk_base {
  demand : nat;
  buf_ : list T;
  delivered : list T;
  phase : lifecycle
}.

Definition state : Type := pipeline T base.

Definition with_super (b : base) (p : state) : state :=
  {| queue_ := queue_ p; notify_hdl_ := notify_hdl_ p; super := b |}.

Definition with_phase (ph : lifecycle) (b : base) : base :=
  {| demand := demand b; buf_ := buf_ b; delivered := delivered b; phase := ph |}.

(** Modelled from the spec: "Terminal states are absorbing". *)
Definition terminal (b : base) : bool :=
  match phase b with
  | Completed | Aborted _ => true
  | Active | Draining => false
  end.

(** Modelled from the spec: the base "considers itself finished" when
    upstream has signalled close and nothing is left to hand downstream. *)
Definition base_done (b : base) : bool :=
  match phase b with
  | Active => false
  | Draining | Completed | Aborted _ => Queue.empty (buf_ b)
  end.

(** Modelled from the spec: [append_to_buf] "appends the returned items,
    in order, to the adapter's outgoing staging buffer". *)
Definition base_append_to_buf (items : list T) (b : base) : base :=
  {| demand := demand b; buf_ := buf_ b ++ items;
     delivered := delivered b; phase := phase b |}.

(** Modelled from the spec: staged items go downstream as far as the
    outstanding demand allows. *)
Definition deliver (b : base) : base :=
  let k := Nat.min (demand b) (length (buf_ b)) in
  {| demand := demand b - k; buf_ := skipn k (buf_ b);
     delivered := delivered b ++ firstn k (buf_ b); phase := phase b |}.

(** Modelled from the spec: a requested shutdown "must be deferred until
    done() becomes true". *)
Definition conclude (done : state -> bool) (p : state) : state :=
  match phase (super p) with
  | Draining => if done p then with_super (with_phase Completed (super p)) p else p
  | Active | Completed | Aborted _ => p
  end.

(** Modelled from the spec: the base's [try_push] "attempts to pull as
    much as current downstream demand allows" by calling [pull(n)], never
    with [n = 0], and never once terminal. *)
Definition base_try_push (pull : nat -> state -> checked state)
           (done : state -> bool) (p : state) : checked state :=
  if terminal (super p) then Done p
  else
    let n := demand (super p) - length (buf_ (super p)) in
    match (if 0 <? n then pull n p else Done p) with
    | Done p' => Done (conclude done (with_super (deliver (super p')) p'))
    | AssertionFailed => AssertionFailed
    end.

(** Modelled from the spec: [shutdown()] requests termination, which
    happens once [done()] holds. *)
Definition base_shutdown (done : state -> bool) (p : state) : state :=
  match phase (super p) with
  | Active => conclude done (with_super (with_phase Draining (super p)) p)
  | Draining | Completed | Aborted _ => p
  end.

(** Modelled from the spec: [abort(reason)] "immediately propagates
    termination with that reason" and "discards any
    buffered-but-undelivered items". *)
Definition base_abort (reason : error) (b : base) : base :=
  if terminal b then b
  else {| demand := demand b; buf_ := []; delivered := delivered b;
          phase := Aborted reason |}.

(** Modelled from the spec: [on_request(sink, n)] updates the
    "outstanding demand bookkeeping, which may synchronously trigger
    further pulls". *)
Definition base_on_request (pull : nat -> state -> checked state)
           (done : state -> bool) (sink : observer) (n : nat) (p : state)
  : checked state :=
  if terminal (super p) then Done p
  else
    base_try_push pull done
      (with_super {| demand := demand (super p) + n; buf_ := buf_ (super p);
                     delivered := delivered (super p);
                     phase := phase (super p) |} p).

(** Modelled from the spec: the base class as described, as an instance of
    the interface the backend is written against. *)
#[export] Instance spec_impl : Backend.buffered_observable_impl T error observer base :=
  {| Backend.super_done := base_done;
     Backend.append_to_buf := base_append_to_buf;
     Backend.super_try_push := base_try_push;
     Backend.super_shutdown := base_shutdown;
     Backend.super_abort := base_abort;
     Backend.super_on_request := base_on_request |}.
End FlowBase.
Arguments base T error : clear implicits.
Arguments lifecycle error : clear implicits.
End FlowBase.

(** ** Interleavings of producer and consumer calls *)

Module Trace.
Section Trace.
Context {T error observer base : Type}.
Context {impl : Backend.buffered_observable_impl T error observer base}.

(** One atomic call on the shared queue: a producer's [try_push(value)]
    or the backend's [pull(n)]. *)
Inductive action : Type :=
| producer_try_push (value : T)
| consumer_pull (n : nat).

(** Runs the calls in order; the result lists what each [try_push]
    returned. *)
Fixpoint run (acts : list action) (p : pipeline T base)
  : checked (list bool * pipeline T base) :=
  match acts with
  | [] => Done ([], p)
  | producer_try_push value :: rest =>
      let '(added, p') := PublishingQueue.try_push p value in
      match run rest p' with
      | Done (flags, p'') => Done (added :: flags, p'')
      | AssertionFailed => AssertionFailed
      end
  | consumer_pull n :: rest =>
      match Backend.pull n p with
      | Done p' => run rest p'
      | AssertionFailed => AssertionFailed
      end
  end.

(** The values offered by the producers, in call order. *)
Fixpoint pushed (acts : list action) : list T :=
  match acts with
  | [] => []
  | producer_try_push value :: rest => value :: pushed rest
  | consumer_pull _ :: rest => pushed rest
  end.

(** The buffer is below its capacity at the moment of every push, and
    every [pull] is called with a positive argument. *)
Fixpoint never_full (acts : list action) (p : pipeline T base) : bool :=
  match acts with
  | [] => true
  | producer_try_push value :: rest =>
      (length (Queue.buf (queue_ p)) <? Queue.capacity (queue_ p))
      && never_full rest (snd (PublishingQueue.try_push p value))
  | consumer_pull n :: rest =>
      match Backend.pull n p with
      | Done p' => never_full rest p'
      | AssertionFailed => false
      end
  end.
End Trace.
Arguments action T : clear implicits.
End Trace.

(** The signals the worker dispatches to the backend, interleaved with
    producers offering values; used to state what can follow an abort. *)
Module Hooks.
Section Hooks.
Context {T error observer base : Type}.
Context {impl : Backend.buffered_observable_impl T error observer base}.

Inductive event : Type :=
| event_signal
| close_signal
| abort_signal (reason : error)
| request (sink : observer) (n : nat)
| offer (value : T).

Definition dispatch (e : event) (p : pipeline T base) : checked (pipeline T base) :=
  match e with
  | event_signal => Backend.on_event p
  | close_signal => Backend.on_close p
  | abort_signal reason => Done (Backend.on_abort reason p)
  | request sink n => Backend.on_request sink n p
  | offer value => Done (snd (PublishingQueue.try_push p value))
  end.

Fixpoint dispatch_all (es : list event) (p : pipeline T base)
  : checked (pipeline T base) :=
  match es with
  | [] => Done p
  | e :: rest =>
      match dispatch e p with
      | Done p' => dispatch_all rest p'
      | AssertionFailed => AssertionFailed
      end
  end.
End Hooks.
Arguments event T error observer : clear implicits.
End Hooks.

(** ** Schedules: calls of other threads seen from a parked [push] *)

Module Schedule.
Section Schedule.
Context {T error observer base : Type}.
Context {impl : Backend.buffered_observable_impl T error observer base}.

(** The values whose [try_push] returned [true], in call order. *)
Fixpoint accepted (values : list T) (flags : list bool) : list T :=
  match values, flags with
  | value :: values', true :: flags' => value :: accepted values' flags'
  | _ :: values', false :: flags' => accepted values' flags'
  | _, _ => []
  end.

(** The shared state another thread leaves behind by one call.  A [pull]
    that trips its assertion has changed nothing. *)
Definition after (a : Trace.action T) (p : pipeline T base) : pipeline T base :=
  match a with
  | Trace.producer_try_push value => snd (PublishingQueue.try_push p value)
  | Trace.consumer_pull n =>
      match Backend.pull n p with
      | Done p' => p'
      | AssertionFailed => p
      end
  end.

(** The bound on the buffer that holds for every capacity, zero included:
    one item is always let into an empty buffer. *)
Definition roomy (q : Queue.queue T) : Prop :=
  length (Queue.buf q) <= Nat.max 1 (Queue.capacity q).
End Schedule.
End Schedule.

(** ** Producer calls in two steps *)

Module InFlight.
Section InFlight.
Context {T error observer base : Type}.
Context {impl : Backend.buffered_observable_impl T error observer base}.

(** The handle's [try_push] and [push] hold the mutex only inside
    [queue_->try_push] and [queue_->push] (lines 74 and 83); the call of
    [notify_event()] that follows (lines 75-76 and 84-85) is made with the
    mutex released, so other threads run in between.  [pending] counts the
    producers that have left the queue with [do_notify = true] and have not
    made that call yet. *)
Record world : Type := mk_world {
  shared : pipeline T base;
  pending : nat
}.

Inductive move : Type :=
| queue_try_push (value : T)
| queue_push (value : T)
| send_notify
| backend_pull (n : nat).

Definition leave_queue (q : Queue.queue T) (do_notify : bool) (w : world) : world :=
  {| shared := {| queue_ := q; notify_hdl_ := notify_hdl_ (shared w);
                  super := super (shared w) |};
     pending := if do_notify then S (pending w) else pending w |}.

(** One move of one thread; [None] when no thread can make it: nobody has a
    notification to send, or [pull] tripped its assertion.  A pass of
    [queue_->push] that parks changes nothing. *)
Definition exec (m : move) (w : world) : option world :=
  match m with
  | queue_try_push value =>
      let '((_, do_notify), q) := Queue.try_push (queue_ (shared w)) value in
      Some (leave_queue q do_notify w)
  | queue_push value =>
      match Queue.push (queue_ (shared w)) value with
      | Returned (do_notify, q) => Some (leave_queue q do_notify w)
      | CvWait => Some w
      end
  | send_notify =>
      match pending w with
      | 0 => None
      | S k =>
          Some {| shared := {| queue_ := queue_ (shared w);
                               notify_hdl_ := notify_event (notify_hdl_ (shared w));
                               super := super (shared w) |};
                  pending := k |}
      end
  | backend_pull n =>
      match Backend.pull n (shared w) with
      | Done p' => Some {| shared := p'; pending := pending w |}
      | AssertionFailed => None
      end
  end.

Fixpoint exec_all (ms : list move) (w : world) : option world :=
  match ms with
  | [] => Some w
  | m :: rest =>
      match exec m w with
      | Some w' => exec_all rest w'
      | None => None
      end
  end.

End InFlight.
Arguments world T base : clear implicits.
Arguments move T : clear implicits.
End InFlight.

(** * Properties *)

(** ** Generic facts about the wait loop *)

Section AwaitFacts.
Context {S A : Type}.
Variable call : S -> blocking (A * S).

Lemma await_returned wakeups s r :
  call s = Returned r -> await call wakeups s = Some r.
Proof.
  intros H. destruct wakeups; simpl; rewrite H; reflexivity.
Qed.

Lemma await_parked w wakeups s :
  call s = CvWait -> await call (w :: wakeups) s = await call wakeups (w s).
Proof.
  intros H. simpl. rewrite H. reflexivity.
Qed.

(** A returning [await] returned from one pass of the loop body, run on
    the state left by the wake-ups before it; every earlier pass parked. *)
Lemma await_some_inv wakeups : forall s r,
  await call wakeups s = Some r ->
  exists k, k <= length wakeups /\
            call (after_wakeups wakeups k s) = Returned r /\
            forall j, j < k -> call (after_wakeups wakeups j s) = CvWait.
Proof.
  induction wakeups as [|w ws IH]; intros s r H; simpl in H.
  - destruct (call s) eqn:E; [|discriminate].
    injection H as ->. exists 0. split; [simpl; lia|]. split; [exact E|].
    intros j Hj. lia.
  - destruct (call s) eqn:E.
    + injection H as ->. exists 0. split; [simpl; lia|]. split; [exact E|].
      intros j Hj. lia.
    + destruct (IH _ _ H) as (k & Hk & Hret & Hpark).
      exists (Datatypes.S k). split; [simpl; lia|]. split; [exact Hret|].
      intros [|j] Hj; [exact E|]. apply Hpark. lia.
Qed.

(** Rely/guarantee for the loop: a property kept by every wake-up and by
    a returning pass holds when the call returns. *)
Lemma await_preserves (P : S -> Prop) wakeups :
  (forall s a s', P s -> call s = Returned (a, s') -> P s') ->
  Forall (fun w => forall s, P s -> P (w s)) wakeups ->
  forall s a s', P s -> await call wakeups s = Some (a, s') -> P s'.
Proof.
  intros Hcall Hw. induction Hw as [|w ws Hw1 _ IH]; intros s a s' Hs H; simpl in H.
  - destruct (call s) as [[a0 s0]|] eqn:E; [|discriminate].
    injection H as -> ->. eapply Hcall; eauto.
  - destruct (call s) as [[a0 s0]|] eqn:E.
    + injection H as -> ->. eapply Hcall; eauto.
    + eapply IH; [|exact H]. apply Hw1. exact Hs.
Qed.
End AwaitFacts.

(** ** The queue *)

Section QueueFacts.
Context {T : Type}.
Implicit Types (q : Queue.queue T) (v value : T).

Lemma empty_true (b : list T) : Queue.empty b = true <-> b = [].
Proof. destruct b; simpl; split; intros H; congruence. Qed.

Lemma empty_false (b : list T) : Queue.empty b = false <-> b <> [].
Proof. destruct b; simpl; split; intros H; congruence. Qed.

Lemma buf_emplace_back q v :
  Queue.buf (Queue.emplace_back q v) = Queue.buf q ++ [v].
Proof. reflexivity. Qed.

Lemma length_emplace_back q v :
  length (Queue.buf (Queue.emplace_back q v)) = Datatypes.S (length (Queue.buf q)).
Proof. simpl. rewrite length_app. simpl. lia. Qed.

(** [push] and [try_push] take the same branch on every state. *)
Lemma push_as_try_push q v :
  Queue.push q v =
  match Queue.try_push q v with
  | ((true, first), q') => Returned (first, q')
  | ((false, _), _) => CvWait
  end.
Proof.
  unfold Queue.push, Queue.try_push.
  destruct (Queue.empty (Queue.buf q)); [reflexivity|].
  destruct (length (Queue.buf q) <? Queue.capacity q); reflexivity.
Qed.
End QueueFacts.

Section QueueSpec.
Context {T : Type}.
Implicit Types (q : Queue.queue T) (v value : T).

(** C1 (as amended).  [try_push] on the queue returns [(true, true)] and
    appends the value when the buffer is empty; returns [(true, false)]
    and appends when the buffer is non-empty and shorter than the
    capacity; returns [(false, false)] and leaves the queue unchanged when
    the buffer is non-empty and its length equals, or exceeds, the
    capacity.  The three cases cover every state, and the call has no
    path to [cv.wait]: its result type has no parked outcome. *)
Theorem try_push_cases q v :
  (Queue.buf q = [] ->
   Queue.try_push q v = ((true, true), Queue.emplace_back q v)) /\
  (Queue.buf q <> [] -> length (Queue.buf q) < Queue.capacity q ->
   Queue.try_push q v = ((true, false), Queue.emplace_back q v)) /\
  (Queue.buf q <> [] -> Queue.capacity q <= length (Queue.buf q) ->
   Queue.try_push q v = ((false, false), q)) /\
  Queue.buf (Queue.emplace_back q v) = Queue.buf q ++ [v] /\
  Queue.capacity (Queue.emplace_back q v) = Queue.capacity q.
Proof.
  unfold Queue.try_push. repeat split.
  - intros ->. reflexivity.
  - intros Hne Hlt. apply empty_false in Hne. rewrite Hne.
    apply Nat.ltb_lt in Hlt. rewrite Hlt. reflexivity.
  - intros Hne Hge. apply empty_false in Hne. rewrite Hne.
    apply Nat.ltb_ge in Hge. rewrite Hge. reflexivity.
Qed.

(** C3.  Whenever the buffer is not full (it is empty, or shorter than
    the capacity), the blocking [push] appends and returns on its first
    pass, under every wake-up schedule, and the queue it leaves and the
    first-item flag it returns are identical to what [try_push] produces on
    the same state; the flag is [true] exactly when the append took the
    buffer from empty to non-empty.  Conversely a pass of [push] returns
    only on such a state, and on every other state [push] parks where
    [try_push] refuses. *)
Theorem push_mirrors_try_push q v :
  (Queue.buf q = [] \/ length (Queue.buf q) < Queue.capacity q ->
   exists first,
     Queue.push q v = Returned (first, Queue.emplace_back q v) /\
     Queue.try_push q v = ((true, first), Queue.emplace_back q v) /\
     Queue.buf (Queue.emplace_back q v) = Queue.buf q ++ [v] /\
     (first = true <-> Queue.buf q = []) /\
     forall wakeups,
       Queue.push_blocking wakeups q v = Some (first, Queue.emplace_back q v)) /\
  (forall first q',
      Queue.push q v = Returned (first, q') ->
      Queue.try_push q v = ((true, first), q') /\
      (Queue.buf q = [] \/ length (Queue.buf q) < Queue.capacity q)) /\
  (Queue.buf q <> [] -> Queue.capacity q <= length (Queue.buf q) ->
   Queue.push q v = CvWait /\ Queue.try_push q v = ((false, false), q)).
Proof.
  split; [|split].
  - intros Hroom.
    exists (Queue.empty (Queue.buf q)).
    assert (Hpush : Queue.push q v
                    = Returned (Queue.empty (Queue.buf q), Queue.emplace_back q v)).
    { unfold Queue.push. destruct (Queue.empty (Queue.buf q)) eqn:E; [reflexivity|].
      apply empty_false in E. destruct Hroom as [Hnil|Hlt]; [contradiction|].
      apply Nat.ltb_lt in Hlt. rewrite Hlt. reflexivity. }
    split; [exact Hpush|]. split.
    { rewrite push_as_try_push in Hpush.
      destruct (Queue.try_push q v) as [[[|] f] q1]; [|discriminate].
      injection Hpush as -> ->. reflexivity. }
    split; [reflexivity|]. split; [apply empty_true|].
    intros wakeups. unfold Queue.push_blocking. apply await_returned. exact Hpush.
  - intros first q' H. split.
    + rewrite push_as_try_push in H.
      destruct (Queue.try_push q v) as [[[|] f] q1]; [|discriminate].
      injection H as <- <-. reflexivity.
    + unfold Queue.push in H.
      destruct (Queue.empty (Queue.buf q)) eqn:E; [left; apply empty_true; exact E|].
      destruct (length (Queue.buf q) <? Queue.capacity q) eqn:L; [|discriminate].
      right. apply Nat.ltb_lt. exact L.
  - intros Hne Hge. unfold Queue.push, Queue.try_push.
    apply empty_false in Hne. rewrite Hne.
    apply Nat.ltb_ge in Hge. rewrite Hge. split; reflexivity.
Qed.

(** C10.  A queue constructed with capacity 0 accepts exactly one item:
    on the fresh queue [try_push] returns [(true, true)] and [push]
    appends and returns on its first pass; the buffer then holds one item
    more than the capacity, [try_push] refuses the next value and [push]
    parks on it.  For every capacity, [push] on an empty buffer returns
    without any wake-up. *)
Theorem zero_capacity_accepts_one_item max_size v w :
  let q0 := {| Queue.capacity := 0; Queue.buf := []; Queue.cv := 0 |} in
  let q1 := {| Queue.capacity := 0; Queue.buf := [v]; Queue.cv := 0 |} in
  Queue.queue_ctor max_size 0 = Built q0 /\
  Queue.try_push q0 v = ((true, true), q1) /\
  Queue.push q0 v = Returned (true, q1) /\
  length (Queue.buf q1) = Queue.capacity q1 + 1 /\
  Queue.try_push q1 w = ((false, false), q1) /\
  Queue.push q1 w = CvWait /\
  (forall capacity cv wakeups,
      Queue.push_blocking wakeups
        {| Queue.capacity := capacity; Queue.buf := []; Queue.cv := cv |} v
      = Some (true, {| Queue.capacity := capacity; Queue.buf := [v];
                       Queue.cv := cv |})).
Proof.
  cbv zeta. repeat split.
  intros capacity cv wakeups. unfold Queue.push_blocking.
  apply await_returned. reflexivity.
Qed.
End QueueSpec.

(** Capacity 0, empty buffer: the length equals the capacity, yet the value
    is accepted and appended. *)
Lemma try_push_full_case_counterexample :
  let q := {| Queue.capacity := 0; Queue.buf := @nil nat; Queue.cv := 0 |} in
  length (Queue.buf q) = Queue.capacity q /\
  Queue.try_push q 7 =
    ((true, true), {| Queue.capacity := 0; Queue.buf := [7]; Queue.cv := 0 |}) /\
  Queue.try_push q 7 <> ((false, false), q).
Proof.
  cbv zeta. repeat split. discriminate.
Qed.

Lemma try_push_cases_witness :
  let q := {| Queue.capacity := 2; Queue.buf := [1; 2]; Queue.cv := 0 |} in
  Queue.try_push q 3 = ((false, false), q) /\
  Queue.try_push {| Queue.capacity := 2; Queue.buf := [1]; Queue.cv := 0 |} 2
  = ((true, false), q).
Proof.
  split.
  - apply (proj1 (proj2 (proj2 (try_push_cases
             {| Queue.capacity := 2; Queue.buf := [1; 2]; Queue.cv := 0 |} 3)))).
    + discriminate.
    + simpl. lia.
  - apply (proj1 (proj2 (try_push_cases
             {| Queue.capacity := 2; Queue.buf := [1]; Queue.cv := 0 |} 2))).
    + discriminate.
    + simpl. lia.
Defined.

Lemma push_mirrors_try_push_witness :
  let q := {| Queue.capacity := 2; Queue.buf := [1]; Queue.cv := 0 |} in
  let q' := {| Queue.capacity := 2; Queue.buf := [1; 2]; Queue.cv := 0 |} in
  exists first,
    Queue.push q 2 = Returned (first, q') /\
    Queue.try_push q 2 = ((true, first), q') /\
    Queue.buf q' = Queue.buf q ++ [2] /\
    (first = true <-> Queue.buf q = []) /\
    forall wakeups, Queue.push_blocking wakeups q 2 = Some (first, q').
Proof.
  cbv zeta.
  apply (proj1 (@push_mirrors_try_push nat
                  {| Queue.capacity := 2; Queue.buf := [1]; Queue.cv := 0 |} 2)).
  right. simpl. lia.
Defined.

(** ** The producer handle *)

Section HandleSpec.
Context {T base : Type}.
Implicit Types (p : pipeline T base) (v : T).

Lemma handle_push_as_queue_push p v :
  PublishingQueue.push p v =
  match Queue.push (queue_ p) v with
  | Returned (first, q) =>
      Returned (tt, {| queue_ := q;
                       notify_hdl_ := notify_hdl_ p + (if first then 1 else 0);
                       super := super p |})
  | CvWait => CvWait
  end.
Proof.
  unfold PublishingQueue.push, notify_event.
  destruct (Queue.push (queue_ p) v) as [[[|] q]|]; repeat f_equal; lia.
Qed.

(** C4.  The handle's [try_push] returns exactly the queue's accepted
    flag, and both [try_push] and [push] call [notify_event()] once when
    the queue operation reported the first-item flag and not at all
    otherwise: the number of calls made on the handle grows by one or by
    zero accordingly.  A parked pass of [push] makes no call; a blocking
    [push] that returns made its call, if any, on the state found at its
    last wake-up. *)
Theorem notify_event_iff_first_item p v :
  (let r := Queue.try_push (queue_ p) v in
   PublishingQueue.try_push p v =
   (fst (fst r),
    {| queue_ := snd r;
       notify_hdl_ := notify_hdl_ p + (if snd (fst r) then 1 else 0);
       super := super p |})) /\
  match Queue.push (queue_ p) v with
  | Returned (first, q) =>
      PublishingQueue.push p v =
      Returned (tt, {| queue_ := q;
                       notify_hdl_ := notify_hdl_ p + (if first then 1 else 0);
                       super := super p |})
  | CvWait => PublishingQueue.push p v = CvWait
  end /\
  (forall wakeups p',
      PublishingQueue.push_blocking wakeups p v = Some (tt, p') ->
      exists k first,
        k <= length wakeups /\
        Queue.push (queue_ (after_wakeups wakeups k p)) v
        = Returned (first, queue_ p') /\
        notify_hdl_ p'
        = notify_hdl_ (after_wakeups wakeups k p) + (if first then 1 else 0) /\
        super p' = super (after_wakeups wakeups k p)).
Proof.
  split; [|split].
  - cbv zeta. unfold PublishingQueue.try_push, notify_event.
    destruct (Queue.try_push (queue_ p) v) as [[added [|]] q]; simpl;
      repeat f_equal; lia.
  - rewrite handle_push_as_queue_push.
    destruct (Queue.push (queue_ p) v) as [[first q]|]; reflexivity.
  - intros wakeups p' H. unfold PublishingQueue.push_blocking in H.
    apply await_some_inv in H. destruct H as (k & Hk & Hret & _).
    rewrite handle_push_as_queue_push in Hret.
    destruct (Queue.push (queue_ (after_wakeups wakeups k p)) v)
      as [[first q]|] eqn:E; [|discriminate].
    injection Hret as <-. exists k, first. simpl. auto.
Qed.
End HandleSpec.

Lemma notify_event_iff_first_item_witness :
  let p := {| queue_ := {| Queue.capacity := 1; Queue.buf := [4]; Queue.cv := 0 |};
              notify_hdl_ := 1; super := tt |} in
  let drain := fun p : pipeline nat unit =>
    {| queue_ := {| Queue.capacity := 1; Queue.buf := []; Queue.cv := 1 |};
       notify_hdl_ := notify_hdl_ p; super := super p |} in
  exists k first,
    k <= 1 /\
    Queue.push (queue_ (after_wakeups [drain] k p)) 5
    = Returned (first, {| Queue.capacity := 1; Queue.buf := [5]; Queue.cv := 1 |}) /\
    2 = notify_hdl_ (after_wakeups [drain] k p) + (if first then 1 else 0) /\
    tt = super (after_wakeups [drain] k p).
Proof.
  cbv zeta.
  apply (proj2 (proj2 (@notify_event_iff_first_item nat unit
           {| queue_ := {| Queue.capacity := 1; Queue.buf := [4]; Queue.cv := 0 |};
              notify_hdl_ := 1; super := tt |} 5))
           [fun p : pipeline nat unit =>
              {| queue_ := {| Queue.capacity := 1; Queue.buf := []; Queue.cv := 1 |};
                 notify_hdl_ := notify_hdl_ p; super := super p |}]
           {| queue_ := {| Queue.capacity := 1; Queue.buf := [5]; Queue.cv := 1 |};
              notify_hdl_ := 2; super := tt |}).
  reflexivity.
Defined.

(** ** The backend *)

Section BackendSpec.
Context {T error observer base : Type}.
Context {impl : Backend.buffered_observable_impl T error observer base}.
Implicit Types (p : pipeline T base) (n : nat).

Lemma pull_positive n p :
  0 < n ->
  Backend.pull n p =
  let src_buf := Queue.buf (queue_ p) in
  let m := Nat.min n (length src_buf) in
  if 0 <? m then
    Done {| queue_ := {| Queue.capacity := Queue.capacity (queue_ p);
                         Queue.buf := skipn m src_buf;
                         Queue.cv := Datatypes.S (Queue.cv (queue_ p)) |};
            notify_hdl_ := notify_hdl_ p;
            super := Backend.append_to_buf (firstn m src_buf) (super p) |}
  else Done p.
Proof.
  intros Hn. unfold Backend.pull, CAF_ASSERT.
  apply Nat.ltb_lt in Hn. rewrite Hn. reflexivity.
Qed.

(** C2.  [pull(n)] with [n > 0] takes exactly the first
    [m = min(n, size)] items off the buffer, in order, and hands exactly
    those to [append_to_buf]; what it leaves is the rest of the buffer, so
    never more than [n] and never more than were present are taken.  It
    broadcasts on the condition variable (waking every thread parked in
    [push]) once when [m > 0] and not at all when [m = 0], in which case
    nothing at all changes. *)
Theorem pull_drains_prefix n p :
  0 < n ->
  let src_buf := Queue.buf (queue_ p) in
  let m := Nat.min n (length src_buf) in
  exists p',
    Backend.pull n p = Done p' /\
    Queue.buf (queue_ p') = skipn m src_buf /\
    firstn m src_buf ++ Queue.buf (queue_ p') = src_buf /\
    length (firstn m src_buf) = m /\ m <= n /\ m <= length src_buf /\
    length (Queue.buf (queue_ p')) = length src_buf - m /\
    Queue.capacity (queue_ p') = Queue.capacity (queue_ p) /\
    notify_hdl_ p' = notify_hdl_ p /\
    (0 < m ->
     super p' = Backend.append_to_buf (firstn m src_buf) (super p) /\
     Queue.cv (queue_ p') = notify_all (Queue.cv (queue_ p))) /\
    (m = 0 -> p' = p) /\
    (Queue.cv (queue_ p') <> Queue.cv (queue_ p) <-> 0 < m).
Proof.
  intros Hn. cbv zeta. rewrite (pull_positive p Hn). cbv zeta.
  set (src_buf := Queue.buf (queue_ p)).
  set (m := Nat.min n (length src_buf)).
  assert (Hlen : length (firstn m src_buf) = m).
  { rewrite length_firstn. unfold m. lia. }
  destruct (0 <? m) eqn:E.
  - apply Nat.ltb_lt in E. eexists. split; [reflexivity|]. simpl.
    split; [reflexivity|]. split; [apply firstn_skipn|].
    split; [exact Hlen|]. split; [unfold m; lia|]. split; [unfold m; lia|].
    split; [apply length_skipn|]. split; [reflexivity|]. split; [reflexivity|].
    split; [intros _; split; reflexivity|]. split; [intros Hm; lia|].
    split; [intros _; exact E|intros _; apply Nat.neq_succ_diag_l].
  - apply Nat.ltb_ge in E. assert (Hm : m = 0) by lia.
    exists p. split; [reflexivity|]. rewrite Hm. simpl.
    split; [reflexivity|]. split; [reflexivity|]. split; [reflexivity|].
    split; [lia|]. split; [lia|]. split; [unfold src_buf; lia|].
    split; [reflexivity|].
    split; [reflexivity|]. split; [intros H; lia|]. split; [reflexivity|].
    split; [intros H; contradiction H; reflexivity|intros H; lia].
Qed.

(** C5.  [done()] is [true] exactly when the base class's own [done()]
    is [true] and the shared buffer is empty; in particular it is [false]
    whenever the buffer is non-empty, whatever the base class says. *)
Theorem done_iff_base_done_and_empty p :
  (Backend.done p = true <->
   Backend.super_done (super p) = true /\ Queue.buf (queue_ p) = []) /\
  (Queue.buf (queue_ p) <> [] -> Backend.done p = false).
Proof.
  unfold Backend.done. split.
  - destruct (Backend.super_done (super p)).
    + rewrite empty_true. tauto.
    + split; [discriminate|]. intros [H _]. discriminate.
  - intros Hne. apply empty_false in Hne. rewrite Hne.
    destruct (Backend.super_done (super p)); reflexivity.
Qed.

(** [on_abort] reaches the shared queue and the handle in no way, whatever
    the base class does with the reason. *)
Lemma on_abort_leaves_queue (reason : error) p :
  queue_ (Backend.on_abort reason p) = queue_ p /\
  notify_hdl_ (Backend.on_abort reason p) = notify_hdl_ p.
Proof. split; reflexivity. Qed.

(** C9 (as amended).  [pull(0)] trips the assertion [n > 0] before it
    touches anything, and [pull] with a positive argument passes it.
    Constructing the queue with capacity zero is not caught: the
    constructor and [make_publishing_queue] make no check for zero and
    yield an empty queue of capacity 0.  The one thing the constructor
    refuses is a capacity above the vector's [max_size()], where [reserve]
    throws. *)
Theorem pull_checks_argument_ctor_checks_nothing p max_size (super0 : base) :
  Backend.pull 0 p = AssertionFailed /\
  (forall n, Backend.pull (Datatypes.S n) p <> AssertionFailed) /\
  @Queue.queue_ctor T max_size 0
  = Built {| Queue.capacity := 0; Queue.buf := []; Queue.cv := 0 |} /\
  @make_publishing_queue T base max_size super0 0
  = Built {| queue_ := {| Queue.capacity := 0; Queue.buf := []; Queue.cv := 0 |};
             notify_hdl_ := 0; super := super0 |} /\
  (forall capacity,
      @Queue.queue_ctor T max_size capacity = LengthError <-> max_size < capacity).
Proof.
  split; [reflexivity|]. split.
  - intros n. rewrite pull_positive by lia. cbv zeta.
    destruct (0 <? _); discriminate.
  - split; [reflexivity|]. split; [reflexivity|].
    intros capacity. unfold Queue.queue_ctor.
    destruct (max_size <? capacity) eqn:E.
    + apply Nat.ltb_lt in E. tauto.
    + apply Nat.ltb_ge in E. split; [discriminate|lia].
Qed.
End BackendSpec.

(** Constructing with capacity 0 is not rejected: it yields a queue. *)
Lemma ctor_accepts_zero_capacity :
  @Queue.queue_ctor nat 1024 0
  = Built {| Queue.capacity := 0; Queue.buf := []; Queue.cv := 0 |} /\
  @Queue.queue_ctor nat 1024 0 <> LengthError /\
  @make_publishing_queue nat unit 1024 tt 0
  = Built {| queue_ := {| Queue.capacity := 0; Queue.buf := []; Queue.cv := 0 |};
             notify_hdl_ := 0; super := tt |}.
Proof.
  split; [reflexivity|]. split; [discriminate|reflexivity].
Qed.

Lemma pull_checks_argument_ctor_checks_nothing_witness :
  let p := {| queue_ := {| Queue.capacity := 3; Queue.buf := [7; 8; 9]; Queue.cv := 0 |};
              notify_hdl_ := 1;
              super := FlowBase.mk_base 2 [6] [] (FlowBase.Active (error := unit)) |} in
  @Backend.pull nat unit unit _ FlowBase.spec_impl 0 p = AssertionFailed /\
  @Queue.queue_ctor nat 1024 0
  = Built {| Queue.capacity := 0; Queue.buf := []; Queue.cv := 0 |} /\
  @Queue.queue_ctor nat 1024 1025 = LengthError.
Proof.
  cbv zeta.
  pose proof (@pull_checks_argument_ctor_checks_nothing nat unit unit
                (FlowBase.base nat unit) FlowBase.spec_impl
                {| queue_ := {| Queue.capacity := 3; Queue.buf := [7; 8; 9];
                                Queue.cv := 0 |};
                   notify_hdl_ := 1;
                   super := FlowBase.mk_base 2 [6] []
                              (FlowBase.Active (error := unit)) |}
                1024 (FlowBase.mk_base 0 [] [] (FlowBase.Active (error := unit))))
    as (Hpull & _ & Hctor & _ & Hlimit).
  split; [exact Hpull|]. split; [exact Hctor|].
  apply (proj2 (Hlimit 1025)). lia.
Defined.

Lemma pull_drains_prefix_witness :
  let p := {| queue_ := {| Queue.capacity := 3; Queue.buf := [7; 8; 9]; Queue.cv := 0 |};
              notify_hdl_ := 1;
              super := FlowBase.mk_base 2 [6] [] (FlowBase.Active (error := unit)) |} in
  exists p',
    @Backend.pull nat unit unit _ FlowBase.spec_impl 2 p = Done p' /\
    Queue.buf (queue_ p') = [9] /\
    [7; 8] ++ Queue.buf (queue_ p') = [7; 8; 9] /\
    2 = 2 /\ 2 <= 2 /\ 2 <= 3 /\
    length (Queue.buf (queue_ p')) = 1 /\
    Queue.capacity (queue_ p') = 3 /\
    notify_hdl_ p' = 1 /\
    (0 < 2 ->
     super p' = FlowBase.mk_base 2 [6; 7; 8] [] (FlowBase.Active (error := unit)) /\
     Queue.cv (queue_ p') = 1) /\
    (2 = 0 -> p' = p) /\
    (Queue.cv (queue_ p') <> 0 <-> 0 < 2).
Proof.
  cbv zeta.
  apply (@pull_drains_prefix nat unit unit (FlowBase.base nat unit) FlowBase.spec_impl 2
           {| queue_ := {| Queue.capacity := 3; Queue.buf := [7; 8; 9]; Queue.cv := 0 |};
              notify_hdl_ := 1;
              super := FlowBase.mk_base 2 [6] [] (FlowBase.Active (error := unit)) |}).
  lia.
Defined.

Lemma done_iff_base_done_and_empty_witness :
  @Backend.done nat unit unit _ FlowBase.spec_impl
    {| queue_ := {| Queue.capacity := 3; Queue.buf := [7]; Queue.cv := 0 |};
       notify_hdl_ := 1;
       super := FlowBase.mk_base 0 [] [] (FlowBase.Draining (error := unit)) |}
  = false.
Proof.
  apply (proj2 (@done_iff_base_done_and_empty nat unit unit (FlowBase.base nat unit)
                  FlowBase.spec_impl
                  {| queue_ := {| Queue.capacity := 3; Queue.buf := [7]; Queue.cv := 0 |};
                     notify_hdl_ := 1;
                     super := FlowBase.mk_base 0 [] []
                                (FlowBase.Draining (error := unit)) |})).
  discriminate.
Defined.

(** ** The length bound *)

Section InvariantSpec.
Context {T error observer base : Type}.
Context {impl : Backend.buffered_observable_impl T error observer base}.
Implicit Types (p : pipeline T base) (q : Queue.queue T) (v : T) (n : nat).

Lemma try_push_bounded q v :
  Queue.bounded q ->
  Queue.bounded (snd (Queue.try_push q v)) /\
  Queue.capacity (snd (Queue.try_push q v)) = Queue.capacity q.
Proof.
  unfold Queue.bounded, Queue.within_capacity, Queue.try_push. intros [Hc Hq].
  destruct (Queue.empty (Queue.buf q)) eqn:E.
  - apply empty_true in E. simpl. rewrite E. simpl. lia.
  - destruct (length (Queue.buf q) <? Queue.capacity q) eqn:L; simpl.
    + apply Nat.ltb_lt in L. rewrite length_app. simpl. lia.
    + lia.
Qed.

Lemma push_bounded q v r q' :
  Queue.bounded q -> Queue.push q v = Returned (r, q') ->
  Queue.bounded q' /\ Queue.capacity q' = Queue.capacity q.
Proof.
  intros Hb H. rewrite push_as_try_push in H.
  pose proof (try_push_bounded v Hb) as Hp.
  destruct (Queue.try_push q v) as [[[|] first] q1]; [|discriminate].
  injection H as <- <-. exact Hp.
Qed.

Lemma pull_bounded n p p' :
  Queue.bounded (queue_ p) -> Backend.pull n p = Done p' ->
  Queue.bounded (queue_ p') /\ Queue.capacity (queue_ p') = Queue.capacity (queue_ p).
Proof.
  unfold Queue.bounded, Queue.within_capacity. intros [Hc Hq] H.
  destruct n as [|n]; [discriminate|].
  rewrite pull_positive in H by lia. cbv zeta in H.
  destruct (0 <? _) in H; injection H as <-; simpl; [|lia].
  rewrite length_skipn. lia.
Qed.

(** C7.  With a capacity of at least 1, [length buf <= capacity] is kept
    by every operation on the queue: by [try_push]; by a pass of [push]
    (which, when it parks instead, found the buffer exactly full); by the
    whole blocking [push] whenever the calls that run during its waits
    keep the bound; and by [pull], which fails only on [n = 0].  None of
    them changes the capacity. *)
Theorem within_capacity_preserved p v n :
  1 <= Queue.capacity (queue_ p) ->
  Queue.within_capacity (queue_ p) ->
  (Queue.within_capacity (snd (Queue.try_push (queue_ p) v)) /\
   Queue.capacity (snd (Queue.try_push (queue_ p) v)) = Queue.capacity (queue_ p)) /\
  match Queue.push (queue_ p) v with
  | Returned (_, q') =>
      Queue.within_capacity q' /\ Queue.capacity q' = Queue.capacity (queue_ p)
  | CvWait => length (Queue.buf (queue_ p)) = Queue.capacity (queue_ p)
  end /\
  match Backend.pull n p with
  | Done p' =>
      Queue.within_capacity (queue_ p') /\
      Queue.capacity (queue_ p') = Queue.capacity (queue_ p)
  | AssertionFailed => n = 0
  end /\
  (forall wakeups,
      Forall (fun w => forall q,
                  1 <= Queue.capacity q -> Queue.within_capacity q ->
                  1 <= Queue.capacity (w q) /\ Queue.within_capacity (w q))
             wakeups ->
      match Queue.push_blocking wakeups (queue_ p) v with
      | Some (_, q') => 1 <= Queue.capacity q' /\ Queue.within_capacity q'
      | None => True
      end).
Proof.
  intros Hc Hq. assert (Hb : Queue.bounded (queue_ p)) by (split; assumption).
  split; [|split; [|split]].
  - destruct (try_push_bounded v Hb) as [[_ H1] H2]. auto.
  - destruct (Queue.push (queue_ p) v) as [[r q']|] eqn:E.
    + destruct (push_bounded _ Hb E) as [[_ H1] H2]. auto.
    + unfold Queue.push in E. unfold Queue.within_capacity in Hq.
      destruct (Queue.empty (Queue.buf (queue_ p))); [discriminate|].
      destruct (length (Queue.buf (queue_ p)) <? Queue.capacity (queue_ p)) eqn:L;
        [discriminate|].
      apply Nat.ltb_ge in L. lia.
  - destruct (Backend.pull n p) as [p'|] eqn:E.
    + destruct (pull_bounded _ _ Hb E) as [[_ H1] H2]. auto.
    + destruct n as [|n]; [reflexivity|].
      rewrite pull_positive in E by lia. cbv zeta in E.
      destruct (0 <? _) in E; discriminate.
  - intros wakeups Hw.
    destruct (Queue.push_blocking wakeups (queue_ p) v) as [[r q']|] eqn:E; [|exact I].
    unfold Queue.push_blocking in E.
    apply (await_preserves (fun q' => Queue.push q' v) Queue.bounded) with (3:=Hb) in E.
    + exact E.
    + intros s a s' Hs Hret. apply (push_bounded _ Hs Hret).
    + eapply Forall_impl; [|exact Hw]. intros w H q [H1 H2]. apply H; assumption.
Qed.
End InvariantSpec.

Lemma within_capacity_preserved_witness :
  let p := {| queue_ := {| Queue.capacity := 2; Queue.buf := [1; 2]; Queue.cv := 0 |};
              notify_hdl_ := 1;
              super := FlowBase.mk_base 0 [] [] (FlowBase.Active (error := unit)) |} in
  Queue.within_capacity (snd (Queue.try_push (queue_ p) 3)) /\
  Queue.push (queue_ p) 3 = CvWait /\
  (exists p', @Backend.pull nat unit unit _ FlowBase.spec_impl 1 p = Done p' /\
              Queue.within_capacity (queue_ p')).
Proof.
  cbv zeta.
  pose proof (@within_capacity_preserved nat unit unit (FlowBase.base nat unit)
                FlowBase.spec_impl
                {| queue_ := {| Queue.capacity := 2; Queue.buf := [1; 2]; Queue.cv := 0 |};
                   notify_hdl_ := 1;
                   super := FlowBase.mk_base 0 [] [] (FlowBase.Active (error := unit)) |}
                3 1 ltac:(simpl; lia) ltac:(unfold Queue.within_capacity; simpl; lia))
    as (Htry & _ & Hpull & _).
  split; [exact (proj1 Htry)|]. split; [reflexivity|].
  eexists. split; [reflexivity|]. exact (proj1 Hpull).
Defined.

(** ** First in, first out *)

Section FifoSpec.
Context {T error observer base : Type}.
Context {impl : Backend.buffered_observable_impl T error observer base}.
Implicit Types (p : pipeline T base) (v : T) (acts : list (Trace.action T)).

(** What the base class has been handed so far, in order; all that is
    assumed of [append_to_buf] is that it appends. *)
Variable staged : base -> list T.
Hypothesis staged_append :
  forall items b, staged (Backend.append_to_buf items b) = staged b ++ items.

Lemma try_push_below_capacity p v :
  length (Queue.buf (queue_ p)) < Queue.capacity (queue_ p) ->
  exists p',
    PublishingQueue.try_push p v = (true, p') /\
    Queue.buf (queue_ p') = Queue.buf (queue_ p) ++ [v] /\
    super p' = super p.
Proof.
  intros Hlt. unfold PublishingQueue.try_push, Queue.try_push.
  apply Nat.ltb_lt in Hlt. rewrite Hlt.
  destruct (Queue.empty (Queue.buf (queue_ p))); eexists; repeat split.
Qed.

Lemma pull_conserves n p p' :
  Backend.pull n p = Done p' ->
  staged (super p') ++ Queue.buf (queue_ p')
  = staged (super p) ++ Queue.buf (queue_ p).
Proof.
  destruct n as [|n]; [discriminate|].
  rewrite pull_positive by lia. cbv zeta.
  destruct (0 <? _).
  - intros H. injection H as <-. simpl.
    rewrite staged_append, <- app_assoc, firstn_skipn. reflexivity.
  - intros H. injection H as <-. reflexivity.
Qed.

(** C6 (as amended).  In every interleaving of [try_push] and [pull]
    calls in which the buffer is below capacity at the moment of each
    push, every [try_push] returns [true], and the items handed to the
    base class so far, followed by the items still in the buffer, are the
    items that were there at the start followed by the pushed items in
    push order.  Started from nothing, the drained items are therefore a
    prefix of the pushed sequence, and the whole of it once the buffer is
    empty again. *)
Theorem fifo_conservation acts : forall p,
  Trace.never_full acts p = true ->
  exists flags p',
    Trace.run acts p = Done (flags, p') /\
    length flags = length (Trace.pushed acts) /\
    Forall (fun added => added = true) flags /\
    staged (super p') ++ Queue.buf (queue_ p')
    = staged (super p) ++ Queue.buf (queue_ p) ++ Trace.pushed acts /\
    (staged (super p) = [] -> Queue.buf (queue_ p) = [] ->
     Queue.buf (queue_ p') = [] -> staged (super p') = Trace.pushed acts).
Proof.
  assert (Hgen : forall p, Trace.never_full acts p = true ->
    exists flags p',
      Trace.run acts p = Done (flags, p') /\
      length flags = length (Trace.pushed acts) /\
      Forall (fun added => added = true) flags /\
      staged (super p') ++ Queue.buf (queue_ p')
      = staged (super p) ++ Queue.buf (queue_ p) ++ Trace.pushed acts).
  { induction acts as [|[v|n] rest IH]; intros p H; simpl in H.
    - exists [], p. simpl. rewrite app_nil_r. auto.
    - apply andb_prop in H. destruct H as [Hlt Hrest].
      apply Nat.ltb_lt in Hlt.
      destruct (try_push_below_capacity p v Hlt) as (p1 & Hp1 & Hbuf & Hsup).
      rewrite Hp1 in Hrest. simpl in Hrest.
      destruct (IH _ Hrest) as (flags & p' & Hrun & Hlen & Hall & Hcons).
      exists (true :: flags), p'. simpl. rewrite Hp1, Hrun.
      split; [reflexivity|]. split; [simpl; lia|]. split; [constructor; auto|].
      rewrite Hcons, Hbuf, Hsup, <- app_assoc. reflexivity.
    - destruct (Backend.pull n p) as [p1|] eqn:E; [|discriminate].
      destruct (IH _ H) as (flags & p' & Hrun & Hlen & Hall & Hcons).
      exists flags, p'. simpl. rewrite E.
      split; [exact Hrun|]. split; [exact Hlen|]. split; [exact Hall|].
      rewrite Hcons, app_assoc, (pull_conserves _ _ E), <- app_assoc. reflexivity. }
  intros p H. destruct (Hgen p H) as (flags & p' & Hrun & Hlen & Hall & Hcons).
  exists flags, p'. repeat split; auto.
  intros Hs Hb Hb'. rewrite Hs, Hb, Hb', app_nil_r in Hcons. exact Hcons.
Qed.
End FifoSpec.

(** Capacity 2, one accepted push and no pull: nothing has been drained,
    so the drained items are not the pushed items. *)
Lemma drained_equals_pushed_counterexample :
  let p := {| queue_ := {| Queue.capacity := 2; Queue.buf := @nil nat; Queue.cv := 0 |};
              notify_hdl_ := 0;
              super := FlowBase.mk_base 0 [] [] (FlowBase.Active (error := unit)) |} in
  let acts := [Trace.producer_try_push 1] in
  @make_publishing_queue nat _ 1024
    (FlowBase.mk_base 0 [] [] (FlowBase.Active (error := unit))) 2 = Built p /\
  @Trace.never_full nat unit unit _ FlowBase.spec_impl acts p = true /\
  exists p',
    @Trace.run nat unit unit _ FlowBase.spec_impl acts p = Done ([true], p') /\
    FlowBase.buf_ (super p') = [] /\
    Trace.pushed acts = [1] /\
    FlowBase.buf_ (super p') <> Trace.pushed acts.
Proof.
  cbv zeta. split; [reflexivity|]. split; [reflexivity|].
  eexists. split; [reflexivity|]. simpl. repeat split. discriminate.
Qed.

Lemma fifo_conservation_witness :
  let p := {| queue_ := {| Queue.capacity := 2; Queue.buf := @nil nat; Queue.cv := 0 |};
              notify_hdl_ := 0;
              super := FlowBase.mk_base 0 [] [] (FlowBase.Active (error := unit)) |} in
  let acts := [Trace.producer_try_push 1; Trace.producer_try_push 2;
               Trace.consumer_pull 1; Trace.producer_try_push 3;
               Trace.consumer_pull 5] in
  exists flags p',
    @Trace.run nat unit unit _ FlowBase.spec_impl acts p = Done (flags, p') /\
    length flags = 3 /\
    Forall (fun added => added = true) flags /\
    FlowBase.buf_ (super p') ++ Queue.buf (queue_ p') = [1; 2; 3] /\
    (@nil nat = [] -> @nil nat = [] ->
     Queue.buf (queue_ p') = [] -> FlowBase.buf_ (super p') = [1; 2; 3]).
Proof.
  cbv zeta.
  apply (@fifo_conservation nat unit unit (FlowBase.base nat unit) FlowBase.spec_impl
           (@FlowBase.buf_ nat unit) (fun items b => eq_refl)
           [Trace.producer_try_push 1; Trace.producer_try_push 2;
            Trace.consumer_pull 1; Trace.producer_try_push 3;
            Trace.consumer_pull 5]
           {| queue_ := {| Queue.capacity := 2; Queue.buf := @nil nat; Queue.cv := 0 |};
              notify_hdl_ := 0;
              super := FlowBase.mk_base 0 [] [] (FlowBase.Active (error := unit)) |}).
  reflexivity.
Defined.

(** ** Abort *)

Section AbortSpec.
Context {T error observer : Type}.

Implicit Types (p : pipeline T (FlowBase.base T error)) (reason : error).

Lemma on_abort_terminal reason p :
  FlowBase.terminal (super p) = true ->
  Backend.on_abort (impl := FlowBase.spec_impl (observer := observer)) reason p = p.
Proof.
  intros Ht. unfold Backend.on_abort. simpl. unfold FlowBase.base_abort.
  rewrite Ht. destruct p; reflexivity.
Qed.

Lemma try_push_keeps_super p (v : T) :
  let p' := snd (PublishingQueue.try_push p v) in
  super p' = super p /\
  Queue.cv (queue_ p') = Queue.cv (queue_ p) /\
  Queue.capacity (queue_ p') = Queue.capacity (queue_ p) /\
  exists more, Queue.buf (queue_ p') = Queue.buf (queue_ p) ++ more.
Proof.
  cbv zeta. unfold PublishingQueue.try_push, Queue.try_push.
  destruct (Queue.empty (Queue.buf (queue_ p))); simpl.
  - repeat split. eexists; reflexivity.
  - destruct (length (Queue.buf (queue_ p)) <? Queue.capacity (queue_ p)); simpl.
    + repeat split. eexists; reflexivity.
    + repeat split. exists []. rewrite app_nil_r. reflexivity.
Qed.

(** Once terminal, nothing the worker dispatches reaches the queue or the
    base state; only producers still change the buffer, by appending. *)
Lemma terminal_absorbs (es : list (Hooks.event T error observer)) : forall p,
  FlowBase.terminal (super p) = true ->
  exists p',
    Hooks.dispatch_all (impl := FlowBase.spec_impl) es p = Done p' /\
    super p' = super p /\
    Queue.cv (queue_ p') = Queue.cv (queue_ p) /\
    Queue.capacity (queue_ p') = Queue.capacity (queue_ p) /\
    exists more, Queue.buf (queue_ p') = Queue.buf (queue_ p) ++ more.
Proof.
  induction es as [|e rest IH]; intros p Ht.
  - exists p. simpl. repeat split. exists []. rewrite app_nil_r. reflexivity.
  - assert (Hstep : exists p1,
               Hooks.dispatch (impl := FlowBase.spec_impl) e p = Done p1 /\
               super p1 = super p /\
               Queue.cv (queue_ p1) = Queue.cv (queue_ p) /\
               Queue.capacity (queue_ p1) = Queue.capacity (queue_ p) /\
               exists more, Queue.buf (queue_ p1) = Queue.buf (queue_ p) ++ more).
    { assert (Hsame : exists more, Queue.buf (queue_ p) = Queue.buf (queue_ p) ++ more)
        by (exists []; rewrite app_nil_r; reflexivity).
      assert (Hph : match FlowBase.phase (super p) with
                    | FlowBase.Completed | FlowBase.Aborted _ => True
                    | _ => False
                    end).
      { unfold FlowBase.terminal in Ht.
        destruct (FlowBase.phase (super p)); try discriminate; exact I. }
      destruct e as [| |reason|sink n|v]; simpl.
      - exists p. unfold Backend.on_event. simpl. unfold FlowBase.base_try_push.
        rewrite Ht. auto.
      - exists p. unfold Backend.on_close. simpl. unfold FlowBase.base_try_push.
        rewrite Ht. unfold FlowBase.base_shutdown.
        destruct (FlowBase.phase (super p)); try contradiction; auto.
      - exists p. rewrite (on_abort_terminal reason p Ht). auto.
      - exists p. unfold Backend.on_request. simpl. unfold FlowBase.base_on_request.
        rewrite Ht. auto.
      - eexists. split; [reflexivity|]. apply try_push_keeps_super. }
    destruct Hstep as (p1 & Hd & Hs & Hcv & Hcap & more1 & Hbuf).
    destruct (IH p1) as (p' & Hrun & Hs' & Hcv' & Hcap' & more2 & Hbuf').
    { rewrite Hs. exact Ht. }
    exists p'. simpl. rewrite Hd. split; [exact Hrun|].
    split; [congruence|]. split; [congruence|]. split; [congruence|].
    exists (more1 ++ more2). rewrite Hbuf', Hbuf, app_assoc. reflexivity.
Qed.

(** C8 (as amended).  [on_abort(reason)] hands the reason to the base's
    [abort] and does not touch the shared queue: the buffered items are not
    erased, they stay in the buffer, so [try_push] and [push] behave after
    the abort exactly as before it (a full buffer stays full).  On an
    adapter that is not yet terminal the base enters the aborted state with
    that very reason and drops its own staged items at once.  In every case
    the adapter is terminal afterwards and no pull occurs any more: the
    base's [try_push] and [on_request] return without calling the [pull]
    they are given, whatever it is, and after any further signals, requests
    and producer pushes the base state and what was delivered are
    unchanged, no broadcast was made on the condition variable and no item
    has left the buffer, so the items buffered at the abort are never
    delivered. *)
Theorem on_abort_terminates_and_stops_pulls reason p :
  let p' := Backend.on_abort (impl := FlowBase.spec_impl (observer := observer))
              reason p in
  (FlowBase.terminal (super p) = false ->
   FlowBase.phase (super p') = FlowBase.Aborted reason /\
   FlowBase.buf_ (super p') = [] /\
   FlowBase.delivered (super p') = FlowBase.delivered (super p)) /\
  queue_ p' = queue_ p /\
  (forall v, Queue.try_push (queue_ p') v = Queue.try_push (queue_ p) v /\
             Queue.push (queue_ p') v = Queue.push (queue_ p) v) /\
  FlowBase.terminal (super p') = true /\
  (forall pull done (sink : observer) n,
      FlowBase.base_try_push pull done p' = Done p' /\
      FlowBase.base_on_request pull done sink n p' = Done p') /\
  (forall es : list (Hooks.event T error observer),
      exists p'',
        Hooks.dispatch_all (impl := FlowBase.spec_impl) es p' = Done p'' /\
        super p'' = super p' /\
        FlowBase.delivered (super p'') = FlowBase.delivered (super p) /\
        Queue.cv (queue_ p'') = Queue.cv (queue_ p) /\
        exists more, Queue.buf (queue_ p'') = Queue.buf (queue_ p) ++ more).
Proof.
  cbv zeta.
  set (p' := Backend.on_abort (impl := FlowBase.spec_impl (observer := observer))
               reason p).
  assert (Hsup : super p' = FlowBase.base_abort reason (super p)) by reflexivity.
  assert (Hlive : FlowBase.terminal (super p) = false ->
                  super p' = FlowBase.mk_base (FlowBase.demand (super p)) []
                               (FlowBase.delivered (super p)) (FlowBase.Aborted reason)).
  { intros Ht. rewrite Hsup. unfold FlowBase.base_abort. rewrite Ht. reflexivity. }
  assert (Hdel : FlowBase.delivered (super p') = FlowBase.delivered (super p)).
  { rewrite Hsup. unfold FlowBase.base_abort.
    destruct (FlowBase.terminal (super p)); reflexivity. }
  assert (Ht' : FlowBase.terminal (super p') = true).
  { destruct (FlowBase.terminal (super p)) eqn:Ht.
    - rewrite Hsup. unfold FlowBase.base_abort. rewrite Ht. exact Ht.
    - rewrite (Hlive eq_refl). reflexivity. }
  split; [|split; [|split; [|split; [|split]]]].
  - intros Ht. rewrite (Hlive Ht). repeat split.
  - reflexivity.
  - intros v. split; reflexivity.
  - exact Ht'.
  - intros pull done sink n. unfold FlowBase.base_on_request, FlowBase.base_try_push.
    rewrite Ht'. auto.
  - intros es. destruct (terminal_absorbs es _ Ht') as (p'' & Hrun & Hs & Hcv & _ & Hbuf).
    exists p''. split; [exact Hrun|]. split; [exact Hs|].
    split; [rewrite Hs; exact Hdel|]. split; [exact Hcv|exact Hbuf].
Qed.
End AbortSpec.

(** Three items buffered in a full queue at the abort: they are all still
    in the buffer afterwards, and producers are still refused or parked. *)
Lemma on_abort_keeps_buffered_items :
  let p := {| queue_ := {| Queue.capacity := 3; Queue.buf := [1; 2; 3]; Queue.cv := 0 |};
              notify_hdl_ := 1;
              super := FlowBase.mk_base 2 [0] [] (FlowBase.Active (error := nat)) |} in
  let p' := @Backend.on_abort nat nat unit _ FlowBase.spec_impl 13 p in
  Queue.buf (queue_ p') = [1; 2; 3] /\
  Queue.buf (queue_ p') <> [] /\
  PublishingQueue.try_push p' 4 = (false, p') /\
  PublishingQueue.push p' 4 = CvWait.
Proof.
  cbv zeta. split; [reflexivity|]. split; [discriminate|]. split; reflexivity.
Qed.

Lemma on_abort_terminates_and_stops_pulls_witness :
  let p := {| queue_ := {| Queue.capacity := 3; Queue.buf := [1; 2; 3]; Queue.cv := 0 |};
              notify_hdl_ := 1;
              super := FlowBase.mk_base 2 [0] [] (FlowBase.Active (error := nat)) |} in
  let p' := @Backend.on_abort nat nat unit _ FlowBase.spec_impl 13 p in
  FlowBase.phase (super p') = FlowBase.Aborted 13 /\
  FlowBase.buf_ (super p') = [] /\
  FlowBase.delivered (super p') = [].
Proof.
  cbv zeta.
  apply (proj1 (@on_abort_terminates_and_stops_pulls nat nat unit 13
           {| queue_ := {| Queue.capacity := 3; Queue.buf := [1; 2; 3]; Queue.cv := 0 |};
              notify_hdl_ := 1;
              super := FlowBase.mk_base 2 [0] [] (FlowBase.Active (error := nat)) |})).
  reflexivity.
Defined.

(** Three unpulled items at the abort: a later event signal, a request for
    five items, a close signal and a producer push leave them where they
    are, deliver nothing and make no broadcast. *)
Example scenario_abort_with_three_items :
  let p := {| queue_ := {| Queue.capacity := 4; Queue.buf := [1; 2; 3]; Queue.cv := 0 |};
              notify_hdl_ := 1;
              super := FlowBase.mk_base 0 [] [] (FlowBase.Active (error := nat)) |} in
  @Hooks.dispatch_all nat nat unit _ FlowBase.spec_impl
    [Hooks.abort_signal 13; Hooks.event_signal; Hooks.request tt 5;
     Hooks.close_signal; Hooks.offer 4] p
  = Done {| queue_ := {| Queue.capacity := 4; Queue.buf := [1; 2; 3; 4]; Queue.cv := 0 |};
            notify_hdl_ := 1;
            super := FlowBase.mk_base 0 [] [] (FlowBase.Aborted 13) |} /\
  @Hooks.dispatch_all nat nat unit _ FlowBase.spec_impl
    [Hooks.request tt 5; Hooks.close_signal] p
  = Done {| queue_ := {| Queue.capacity := 4; Queue.buf := []; Queue.cv := 1 |};
            notify_hdl_ := 1;
            super := FlowBase.mk_base 2 [] [1; 2; 3] FlowBase.Completed |}.
Proof. split; reflexivity. Qed.

(** ** The scenarios of the specification, run on the model *)

(** Capacity 2: A and B are accepted, C is refused, one item is pulled, C is
    then accepted, and a pull of up to 5 takes the rest in order. *)
Example scenario_capacity_two :
  let start := {| queue_ := {| Queue.capacity := 2; Queue.buf := @nil nat; Queue.cv := 0 |};
                  notify_hdl_ := 0;
                  super := FlowBase.mk_base 0 [] [] (FlowBase.Active (error := unit)) |} in
  @Trace.run nat unit unit _ FlowBase.spec_impl
    [Trace.producer_try_push 10; Trace.producer_try_push 11;
     Trace.producer_try_push 12; Trace.consumer_pull 1;
     Trace.producer_try_push 12; Trace.consumer_pull 5] start
  = Done ([true; true; false; true],
          {| queue_ := {| Queue.capacity := 2; Queue.buf := []; Queue.cv := 2 |};
             notify_hdl_ := 1;
             super := FlowBase.mk_base 0 [10; 11; 12] []
                        (FlowBase.Active (error := unit)) |}).
Proof. reflexivity. Qed.

(** Capacity 1: the second [push] parks until a pull has taken the first
    item, and returns at the wake-up that follows; with no wake-up it stays
    parked. *)
Example scenario_capacity_one :
  let full := {| Queue.capacity := 1; Queue.buf := [10]; Queue.cv := 0 |} in
  let drained := fun q : Queue.queue nat =>
    {| Queue.capacity := Queue.capacity q; Queue.buf := skipn 1 (Queue.buf q);
       Queue.cv := notify_all (Queue.cv q) |} in
  Queue.push_blocking [] full 11 = None /\
  Queue.push_blocking [fun q => q] full 11 = None /\
  Queue.push_blocking [fun q => q; drained] full 11
  = Some (true, {| Queue.capacity := 1; Queue.buf := [11]; Queue.cv := 1 |}).
Proof. repeat split. Qed.

(** * Further properties of the queue, the handle and the backend *)

(** ** More on the wait loop *)

Section AwaitMore.
Context {S A : Type}.
Variable call : S -> blocking (A * S).

(** A thread still parked at the end of the schedule parked at every pass. *)
Lemma await_none_inv wakeups : forall s,
  await call wakeups s = None ->
  forall j, j <= length wakeups -> call (after_wakeups wakeups j s) = CvWait.
Proof.
  induction wakeups as [|w ws IH]; intros s H j Hj; simpl in H.
  - destruct (call s) eqn:E; [discriminate|].
    destruct j; [exact E|simpl in Hj; lia].
  - destruct (call s) eqn:E; [discriminate|].
    destruct j as [|j]; [exact E|]. apply (IH _ H). simpl in Hj. lia.
Qed.

(** Wake-ups that leave a parked state as it is never release the thread. *)
Lemma await_stays_parked wakeups : forall s,
  call s = CvWait ->
  Forall (fun w => w s = s) wakeups ->
  await call wakeups s = None.
Proof.
  induction wakeups as [|w ws IH]; intros s Hs Hw; simpl; rewrite Hs.
  - reflexivity.
  - inversion Hw as [|? ? Hw1 Hw2]; subst. rewrite Hw1. apply IH; assumption.
Qed.
End AwaitMore.

(** ** Single calls, seen from the pipeline *)

Section StepFacts.
Context {T error observer base : Type}.
Context {impl : Backend.buffered_observable_impl T error observer base}.
Implicit Types (p : pipeline T base) (v : T) (n : nat).

Lemma handle_try_push_accepted p v :
  fst (PublishingQueue.try_push p v) = true ->
  PublishingQueue.try_push p v
  = (true, {| queue_ := Queue.emplace_back (queue_ p) v;
              notify_hdl_ := if Queue.empty (Queue.buf (queue_ p))
                             then notify_event (notify_hdl_ p) else notify_hdl_ p;
              super := super p |}).
Proof.
  unfold PublishingQueue.try_push, Queue.try_push.
  destruct (Queue.empty (Queue.buf (queue_ p))); [reflexivity|].
  destruct (length (Queue.buf (queue_ p)) <? Queue.capacity (queue_ p));
    [reflexivity|discriminate].
Qed.

Lemma handle_try_push_refused p v :
  fst (PublishingQueue.try_push p v) = false ->
  PublishingQueue.try_push p v = (false, p) /\
  Queue.buf (queue_ p) <> [] /\
  Queue.capacity (queue_ p) <= length (Queue.buf (queue_ p)).
Proof.
  unfold PublishingQueue.try_push, Queue.try_push.
  destruct (Queue.empty (Queue.buf (queue_ p))) eqn:E; [discriminate|].
  destruct (length (Queue.buf (queue_ p)) <? Queue.capacity (queue_ p)) eqn:L;
    [discriminate|].
  intros _. apply empty_false in E. apply Nat.ltb_ge in L.
  destruct p; auto.
Qed.

Lemma handle_push_parked_iff_refused p v :
  PublishingQueue.push p v = CvWait <-> fst (PublishingQueue.try_push p v) = false.
Proof.
  unfold PublishingQueue.push, PublishingQueue.try_push, Queue.push, Queue.try_push.
  destruct (Queue.empty (Queue.buf (queue_ p))); [split; discriminate|].
  destruct (length (Queue.buf (queue_ p)) <? Queue.capacity (queue_ p));
    split; try discriminate; reflexivity.
Qed.

(** Every trace without a [pull(0)] runs to its end, and a property kept
    by each single call holds at the end. *)
Lemma run_preserves (P : pipeline T base -> Prop) :
  (forall p v, P p -> P (snd (PublishingQueue.try_push p v))) ->
  (forall n p p', P p -> Backend.pull n p = Done p' -> P p') ->
  forall acts p,
    ~ In (Trace.consumer_pull 0) acts -> P p ->
    exists flags p',
      Trace.run acts p = Done (flags, p') /\ P p' /\
      length flags = length (Trace.pushed acts).
Proof.
  intros Hpush Hpull. induction acts as [|[v|n] rest IH]; intros p Hno Hp.
  - exists [], p. auto.
  - destruct (IH (snd (PublishingQueue.try_push p v))) as (flags & p' & Hrun & HP & Hlen).
    + intros Hin. apply Hno. right. exact Hin.
    + apply Hpush. exact Hp.
    + simpl. destruct (PublishingQueue.try_push p v) as [added p1]. simpl in Hrun.
      rewrite Hrun. exists (added :: flags), p'. simpl. auto.
  - destruct n as [|n]; [exfalso; apply Hno; left; reflexivity|].
    destruct (Backend.pull (Datatypes.S n) p) as [p1|] eqn:E.
    + destruct (IH p1) as (flags & p' & Hrun & HP & Hlen).
      * intros Hin. apply Hno. right. exact Hin.
      * eapply Hpull; eauto.
      * exists flags, p'. simpl. rewrite E. auto.
    + rewrite pull_positive in E by lia. cbv zeta in E.
      destruct (0 <? _) in E; discriminate.
Qed.
End StepFacts.

(** ** The blocking push as a search for the first accepting wake-up *)

Section BlockingPush.
Context {T : Type}.
Implicit Types (q : Queue.queue T) (v : T).

Lemma push_parked_try_push_refused q v :
  Queue.push q v = CvWait -> Queue.try_push q v = ((false, false), q).
Proof.
  rewrite push_as_try_push. unfold Queue.try_push.
  destruct (Queue.empty (Queue.buf q)); [discriminate|].
  destruct (length (Queue.buf q) <? Queue.capacity q); [discriminate|reflexivity].
Qed.

Lemma push_returned_try_push_accepted q v first q' :
  Queue.push q v = Returned (first, q') -> Queue.try_push q v = ((true, first), q').
Proof.
  rewrite push_as_try_push.
  destruct (Queue.try_push q v) as [[[|] f] q1]; [|discriminate].
  intros H. injection H as <- <-. reflexivity.
Qed.

(** X1.  A blocking [push] returns at the first wake-up at which
    [try_push] would accept the value, with the queue and flag [try_push]
    would give there; at every earlier wake-up [try_push] would have
    refused.  It is still parked at the end of the schedule exactly when
    [try_push] would have refused at every wake-up. *)
Theorem push_blocking_first_acceptance wakeups q v :
  match Queue.push_blocking wakeups q v with
  | Some (first, q') =>
      exists k, k <= length wakeups /\
        Queue.try_push (after_wakeups wakeups k q) v = ((true, first), q') /\
        forall j, j < k ->
          Queue.try_push (after_wakeups wakeups j q) v
          = ((false, false), after_wakeups wakeups j q)
  | None =>
      forall j, j <= length wakeups ->
        Queue.try_push (after_wakeups wakeups j q) v
        = ((false, false), after_wakeups wakeups j q)
  end.
Proof.
  unfold Queue.push_blocking.
  destruct (await (fun q' => Queue.push q' v) wakeups q) as [[first q']|] eqn:E.
  - apply await_some_inv in E. destruct E as (k & Hk & Hret & Hpark).
    exists k. split; [exact Hk|]. split.
    + apply push_returned_try_push_accepted. exact Hret.
    + intros j Hj. apply push_parked_try_push_refused. apply Hpark. exact Hj.
  - intros j Hj. apply push_parked_try_push_refused.
    apply (await_none_inv _ _ _ E). exact Hj.
Qed.
End BlockingPush.

(** ** Edge cases and composition of [pull] *)

Section PullMore.
Context {T error observer base : Type}.
Context {impl : Backend.buffered_observable_impl T error observer base}.
Implicit Types (p : pipeline T base) (v : T) (n : nat).

Lemma firstn_min_length (l : list T) n :
  firstn (Nat.min n (length l)) l = firstn n l.
Proof.
  destruct (Nat.le_ge_cases n (length l)) as [H|H].
  - rewrite Nat.min_l by exact H. reflexivity.
  - rewrite Nat.min_r by exact H. rewrite firstn_all, firstn_all2 by exact H.
    reflexivity.
Qed.

Lemma skipn_min_length (l : list T) n :
  skipn (Nat.min n (length l)) l = skipn n l.
Proof.
  destruct (Nat.le_ge_cases n (length l)) as [H|H].
  - rewrite Nat.min_l by exact H. reflexivity.
  - rewrite Nat.min_r by exact H. rewrite skipn_all, skipn_all2 by exact H.
    reflexivity.
Qed.

(** X2.  Edge cases of [pull(n)], [n > 0]: on an empty buffer it changes
    nothing at all (no broadcast, [append_to_buf] is not called); when [n]
    is at least the size of a non-empty buffer it hands the whole buffer
    over in one piece, leaves the buffer empty and broadcasts once. *)
Theorem pull_empty_and_pull_all n p :
  0 < n ->
  (Queue.buf (queue_ p) = [] -> Backend.pull n p = Done p) /\
  (Queue.buf (queue_ p) <> [] -> length (Queue.buf (queue_ p)) <= n ->
   Backend.pull n p
   = Done {| queue_ := {| Queue.capacity := Queue.capacity (queue_ p);
                          Queue.buf := [];
                          Queue.cv := notify_all (Queue.cv (queue_ p)) |};
             notify_hdl_ := notify_hdl_ p;
             super := Backend.append_to_buf (Queue.buf (queue_ p)) (super p) |}).
Proof.
  intros Hn. rewrite (pull_positive p Hn). cbv zeta. split.
  - intros ->. simpl. rewrite Nat.min_0_r. reflexivity.
  - intros Hne Hle. rewrite Nat.min_r by exact Hle.
    destruct (Queue.buf (queue_ p)) as [|x l] eqn:E; [contradiction|].
    rewrite <- E. replace (0 <? length (Queue.buf (queue_ p))) with true.
    + rewrite firstn_all, skipn_all. reflexivity.
    + symmetry. apply Nat.ltb_lt. rewrite E. simpl. lia.
Qed.

Variable staged : base -> list T.
Hypothesis staged_append :
  forall items b, staged (Backend.append_to_buf items b) = staged b ++ items.

Lemma pull_effect n p :
  0 < n ->
  exists p',
    Backend.pull n p = Done p' /\
    Queue.buf (queue_ p') = skipn n (Queue.buf (queue_ p)) /\
    staged (super p') = staged (super p) ++ firstn n (Queue.buf (queue_ p)) /\
    Queue.capacity (queue_ p') = Queue.capacity (queue_ p) /\
    notify_hdl_ p' = notify_hdl_ p.
Proof.
  intros Hn. rewrite (pull_positive p Hn). cbv zeta.
  destruct (0 <? Nat.min n (length (Queue.buf (queue_ p)))) eqn:E.
  - eexists. split; [reflexivity|]. simpl.
    rewrite staged_append, firstn_min_length, skipn_min_length. auto.
  - apply Nat.ltb_ge in E.
    assert (Hnil : Queue.buf (queue_ p) = []).
    { destruct (Queue.buf (queue_ p)); [reflexivity|]. simpl in E. lia. }
    exists p. rewrite Hnil, firstn_nil, skipn_nil, app_nil_r. auto.
Qed.

(** X3.  Two pulls in a row take what one pull of the summed size takes:
    after [pull(a)] then [pull(b)] the buffer and the items handed to the
    base are those left by [pull(a + b)], namely the buffer without its
    first [a + b] items, and those items appended in order. *)
Theorem pull_then_pull a b p :
  0 < a -> 0 < b ->
  exists p1 p2 p3,
    Backend.pull a p = Done p1 /\
    Backend.pull b p1 = Done p2 /\
    Backend.pull (a + b) p = Done p3 /\
    Queue.buf (queue_ p2) = Queue.buf (queue_ p3) /\
    staged (super p2) = staged (super p3) /\
    Queue.buf (queue_ p3) = skipn (a + b) (Queue.buf (queue_ p)) /\
    staged (super p3) = staged (super p) ++ firstn (a + b) (Queue.buf (queue_ p)).
Proof.
  intros Ha Hb.
  destruct (pull_effect p Ha) as (p1 & H1 & Hb1 & Hs1 & _).
  destruct (pull_effect p1 Hb) as (p2 & H2 & Hb2 & Hs2 & _).
  destruct (@pull_effect (a + b) p ltac:(lia)) as (p3 & H3 & Hb3 & Hs3 & _).
  exists p1, p2, p3. repeat split; try assumption.
  - rewrite Hb2, Hb1, Hb3, skipn_skipn. f_equal. lia.
  - rewrite Hs2, Hs1, Hb1, Hs3, <- app_assoc. f_equal.
    rewrite firstn_skipn_comm.
    transitivity (firstn a (firstn (a + b) (Queue.buf (queue_ p)))
                  ++ skipn a (firstn (a + b) (Queue.buf (queue_ p))));
      [|apply firstn_skipn].
    f_equal. rewrite firstn_firstn. f_equal. lia.
Qed.

(** X4.  In every interleaving of [try_push] and [pull] calls, refused
    pushes included, nothing is lost, duplicated or reordered: the items
    handed to the base followed by the items still buffered are the items
    there at the start followed by exactly the accepted values, in call
    order.  The trace runs to its end as long as no [pull(0)] occurs. *)
Theorem accepted_items_conserved acts : forall p,
  ~ In (Trace.consumer_pull 0) acts ->
  exists flags p',
    Trace.run acts p = Done (flags, p') /\
    length flags = length (Trace.pushed acts) /\
    staged (super p') ++ Queue.buf (queue_ p')
    = staged (super p) ++ Queue.buf (queue_ p)
      ++ Schedule.accepted (Trace.pushed acts) flags.
Proof.
  induction acts as [|[v|n] rest IH]; intros p Hno.
  - exists [], p. simpl. rewrite app_nil_r. auto.
  - assert (Hrest : ~ In (Trace.consumer_pull 0) rest)
      by (intros Hin; apply Hno; right; exact Hin).
    destruct (fst (PublishingQueue.try_push p v)) eqn:Hf.
    + pose proof (handle_try_push_accepted p v Hf) as Htp.
      destruct (IH (snd (PublishingQueue.try_push p v)) Hrest)
        as (flags & p' & Hrun & Hlen & Hcons).
      rewrite Htp in Hrun, Hcons. simpl in Hrun, Hcons.
      exists (true :: flags), p'. simpl. rewrite Htp, Hrun.
      split; [reflexivity|]. split; [simpl; lia|].
      rewrite Hcons. rewrite <- app_assoc. reflexivity.
    + destruct (handle_try_push_refused p v Hf) as (Htp & _).
      destruct (IH p Hrest) as (flags & p' & Hrun & Hlen & Hcons).
      exists (false :: flags), p'. simpl. rewrite Htp, Hrun.
      split; [reflexivity|]. split; [simpl; lia|exact Hcons].
  - assert (Hrest : ~ In (Trace.consumer_pull 0) rest)
      by (intros Hin; apply Hno; right; exact Hin).
    destruct n as [|n]; [exfalso; apply Hno; left; reflexivity|].
    destruct (@pull_effect (Datatypes.S n) p ltac:(lia)) as (p1 & H1 & Hb1 & Hs1 & _).
    destruct (IH p1 Hrest) as (flags & p' & Hrun & Hlen & Hcons).
    exists flags, p'. simpl Trace.run. rewrite H1.
    split; [exact Hrun|]. split; [exact Hlen|].
    rewrite Hcons, Hs1, Hb1. simpl Trace.pushed.
    rewrite <- !app_assoc. f_equal. rewrite app_assoc, firstn_skipn. reflexivity.
Qed.
End PullMore.

(** ** Invariants of whole interleavings *)

Section RunInvariants.
Context {T error observer base : Type}.
Context {impl : Backend.buffered_observable_impl T error observer base}.
Implicit Types (p : pipeline T base) (q : Queue.queue T) (v : T) (n : nat).

Lemma try_push_roomy q v :
  Schedule.roomy q ->
  Schedule.roomy (snd (Queue.try_push q v)) /\
  Queue.capacity (snd (Queue.try_push q v)) = Queue.capacity q.
Proof.
  unfold Schedule.roomy, Queue.try_push. intros H.
  destruct (Queue.empty (Queue.buf q)) eqn:E.
  - apply empty_true in E. cbn [snd Queue.emplace_back Queue.buf Queue.capacity].
    rewrite E. cbn [app length]. lia.
  - destruct (length (Queue.buf q) <? Queue.capacity q) eqn:L;
      cbn [snd Queue.emplace_back Queue.buf Queue.capacity]; [|lia].
    apply Nat.ltb_lt in L. rewrite length_app. cbn [length]. lia.
Qed.

Lemma handle_try_push_queue p v :
  queue_ (snd (PublishingQueue.try_push p v)) = snd (Queue.try_push (queue_ p) v).
Proof.
  unfold PublishingQueue.try_push.
  destruct (Queue.try_push (queue_ p) v) as [[a f] q]. reflexivity.
Qed.

Lemma pull_roomy n p p' :
  Schedule.roomy (queue_ p) -> Backend.pull n p = Done p' ->
  Schedule.roomy (queue_ p') /\ Queue.capacity (queue_ p') = Queue.capacity (queue_ p).
Proof.
  unfold Schedule.roomy. intros H E.
  destruct n as [|n]; [discriminate|].
  rewrite pull_positive in E by lia. cbv zeta in E.
  destruct (0 <? _) in E; injection E as <-;
    cbn [queue_ Queue.buf Queue.capacity]; [|lia].
  rewrite length_skipn. lia.
Qed.

Lemma after_roomy (a : Trace.action T) p :
  Schedule.roomy (queue_ p) ->
  Schedule.roomy (queue_ (Schedule.after a p)) /\
  Queue.capacity (queue_ (Schedule.after a p)) = Queue.capacity (queue_ p).
Proof.
  intros H. destruct a as [v|n]; simpl.
  - rewrite handle_try_push_queue. apply try_push_roomy. exact H.
  - destruct (Backend.pull n p) as [p'|] eqn:E; [|auto].
    apply (pull_roomy _ _ H E).
Qed.

(** X5.  For every capacity, zero included, the buffer never holds more
    than [max(1, capacity)] items and the capacity never changes: this is
    kept along every interleaving of [try_push] and [pull] calls, and by a
    blocking [push] whatever such calls run during its waits. *)
Theorem buffer_bounded_for_every_capacity acts p v :
  Schedule.roomy (queue_ p) ->
  (~ In (Trace.consumer_pull 0) acts ->
   exists flags p',
     Trace.run acts p = Done (flags, p') /\
     Schedule.roomy (queue_ p') /\
     Queue.capacity (queue_ p') = Queue.capacity (queue_ p)) /\
  match PublishingQueue.push_blocking (map Schedule.after acts) p v with
  | Some (_, p') =>
      Schedule.roomy (queue_ p') /\
      Queue.capacity (queue_ p') = Queue.capacity (queue_ p)
  | None => True
  end.
Proof.
  intros Hr.
  set (P := fun p' : pipeline T base =>
              Schedule.roomy (queue_ p') /\
              Queue.capacity (queue_ p') = Queue.capacity (queue_ p)).
  assert (HP : P p) by (split; [exact Hr|reflexivity]).
  split.
  - intros Hno.
    destruct (run_preserves P) with (acts := acts) (p := p)
      as (flags & p' & Hrun & HP' & _); auto.
    + intros p0 v0 [H1 H2]. unfold P. rewrite handle_try_push_queue.
      destruct (try_push_roomy v0 H1) as [H3 H4]. split; [exact H3|congruence].
    + intros n p0 p1 [H1 H2] E. destruct (pull_roomy _ _ H1 E) as [H3 H4].
      split; [exact H3|congruence].
    + exists flags, p'. auto.
  - destruct (PublishingQueue.push_blocking (map Schedule.after acts) p v)
      as [[u p']|] eqn:E; [|exact I].
    unfold PublishingQueue.push_blocking in E.
    apply (await_preserves (fun p0 => PublishingQueue.push p0 v) P) with (3:=HP) in E.
    + exact E.
    + intros s a s' [H1 H2] Hret. rewrite handle_push_as_queue_push in Hret.
      destruct (Queue.push (queue_ s) v) as [[first q1]|] eqn:Eq; [|discriminate].
      injection Hret as Ha Hs. subst s'. cbn [queue_].
      apply push_returned_try_push_accepted in Eq.
      destruct (try_push_roomy v H1) as [H3 H4]. rewrite Eq in H3, H4.
      cbn [snd] in H3, H4. split; [exact H3|]. cbn [queue_]. rewrite H4. exact H2.
    + apply Forall_forall. intros w Hw. apply in_map_iff in Hw.
      destruct Hw as (a & <- & _). intros s [H1 H2].
      destruct (after_roomy a _ H1) as [H3 H4]. split; [exact H3|congruence].
Qed.


(** The handle's [try_push] is its queue step followed, when asked, by the
    notification. *)
Lemma handle_try_push_in_two_moves (w : InFlight.world T base) v :
  InFlight.exec_all
    (InFlight.queue_try_push v
     :: if snd (fst (Queue.try_push (queue_ (InFlight.shared w)) v))
        then [InFlight.send_notify] else []) w
  = Some {| InFlight.shared := snd (PublishingQueue.try_push (InFlight.shared w) v);
            InFlight.pending := InFlight.pending w |}.
Proof.
  unfold PublishingQueue.try_push. cbn [InFlight.exec_all InFlight.exec].
  destruct (Queue.try_push (queue_ (InFlight.shared w)) v) as [[added [|]] q];
    reflexivity.
Qed.

End RunInvariants.

(** ** What releases a parked push, and what does not *)

Section Release.
Context {T error observer base : Type}.
Context {impl : Backend.buffered_observable_impl T error observer base}.
Implicit Types (p : pipeline T base) (v : T) (n : nat).

Lemma handle_push_parked p v :
  PublishingQueue.push p v = CvWait ->
  Queue.buf (queue_ p) <> [] /\
  Queue.capacity (queue_ p) <= length (Queue.buf (queue_ p)) /\
  forall x, PublishingQueue.try_push p x = (false, p).
Proof.
  intros H. apply handle_push_parked_iff_refused in H.
  destruct (handle_try_push_refused p v H) as (_ & Hne & Hle).
  split; [exact Hne|]. split; [exact Hle|]. intros x.
  apply handle_try_push_refused.
  unfold PublishingQueue.try_push, Queue.try_push.
  apply empty_false in Hne. rewrite Hne.
  apply Nat.ltb_ge in Hle. rewrite Hle. reflexivity.
Qed.

(** X7.  A [push] parked on a full buffer that respects its bound returns
    at the very next wake-up after a [pull(n)], [n > 0], whatever the rest
    of the schedule: its value is appended behind what the pull left, and
    it calls [notify_event()] exactly when the pull had emptied the
    buffer. *)
Theorem parked_push_released_by_pull p v n rest :
  0 < n ->
  Schedule.roomy (queue_ p) ->
  PublishingQueue.push p v = CvWait ->
  PublishingQueue.push_blocking
    (Schedule.after (Trace.consumer_pull n) :: rest) p v
  = Some (tt,
          {| queue_ := {| Queue.capacity := Queue.capacity (queue_ p);
                          Queue.buf := skipn n (Queue.buf (queue_ p)) ++ [v];
                          Queue.cv := notify_all (Queue.cv (queue_ p)) |};
             notify_hdl_ := if length (Queue.buf (queue_ p)) <=? n
                            then notify_event (notify_hdl_ p) else notify_hdl_ p;
             super := Backend.append_to_buf (firstn n (Queue.buf (queue_ p)))
                        (super p) |}).
Proof.
  intros Hn Hr Hpark. destruct (handle_push_parked _ _ Hpark) as (Hne & Hle & _).
  unfold Schedule.roomy in Hr.
  unfold PublishingQueue.push_blocking. rewrite await_parked by exact Hpark.
  apply await_returned. cbn [Schedule.after].
  rewrite (pull_positive p Hn). cbv zeta.
  assert (Hlen : 0 < length (Queue.buf (queue_ p))).
  { destruct (Queue.buf (queue_ p)); [contradiction|simpl; lia]. }
  replace (0 <? Nat.min n (length (Queue.buf (queue_ p)))) with true
    by (symmetry; apply Nat.ltb_lt; lia).
  rewrite firstn_min_length, skipn_min_length.
  unfold PublishingQueue.push, Queue.push. cbn [queue_ Queue.buf Queue.capacity].
  destruct (skipn n (Queue.buf (queue_ p))) as [|x l] eqn:E.
  - cbn [Queue.empty]. unfold Queue.emplace_back. cbn [Queue.buf Queue.capacity Queue.cv
      notify_hdl_ super app].
    replace (length (Queue.buf (queue_ p)) <=? n) with true; [reflexivity|].
    symmetry. apply Nat.leb_le.
    pose proof (length_skipn n (Queue.buf (queue_ p))) as Hs.
    rewrite E in Hs. simpl in Hs. lia.
  - cbn [Queue.empty].
    pose proof (length_skipn n (Queue.buf (queue_ p))) as Hs.
    rewrite E in Hs. cbn [length] in Hs.
    replace (length (x :: l) <? Queue.capacity (queue_ p)) with true
      by (symmetry; apply Nat.ltb_lt; cbn [length]; lia).
    unfold Queue.emplace_back. cbn [Queue.buf Queue.capacity Queue.cv notify_hdl_ super].
    replace (length (Queue.buf (queue_ p)) <=? n) with false; [reflexivity|].
    symmetry. apply Nat.leb_gt. lia.
Qed.

(** X8.  A parked [push] is released neither by spurious wake-ups nor by
    other producers: each [try_push] made meanwhile is refused and leaves
    the pipeline exactly as it was, so under a schedule made only of those
    the [push] is still parked at its end. *)
Theorem parked_push_not_released_by_producers p v wakeups :
  PublishingQueue.push p v = CvWait ->
  Forall (fun w => (forall s, w s = s) \/
                   exists x, w = Schedule.after (Trace.producer_try_push x))
         wakeups ->
  (forall x, PublishingQueue.try_push p x = (false, p)) /\
  PublishingQueue.push_blocking wakeups p v = None.
Proof.
  intros Hpark Hw. destruct (handle_push_parked _ _ Hpark) as (_ & _ & Href).
  split; [exact Href|].
  unfold PublishingQueue.push_blocking. apply await_stays_parked; [exact Hpark|].
  eapply Forall_impl; [|exact Hw]. intros w [Hid|[x ->]].
  - apply Hid.
  - cbn [Schedule.after]. rewrite Href. reflexivity.
Qed.

(** X9.  Right after an accepted [try_push], and right after a [push] that
    returned, [done()] is [false] whatever the base class answers: an
    accepted item keeps the backend from finishing until it is pulled. *)
Theorem accepted_push_clears_done p v :
  (fst (PublishingQueue.try_push p v) = true ->
   Backend.done (snd (PublishingQueue.try_push p v)) = false) /\
  (forall p', PublishingQueue.push p v = Returned (tt, p') ->
              Backend.done p' = false).
Proof.
  assert (Hgen : forall hdl,
    Backend.done {| queue_ := Queue.emplace_back (queue_ p) v;
                    notify_hdl_ := hdl; super := super p |} = false).
  { intros hdl. unfold Backend.done. cbn [queue_ super Queue.emplace_back Queue.buf].
    destruct (Backend.super_done (super p)); [|reflexivity].
    destruct (Queue.buf (queue_ p)); reflexivity. }
  split.
  - intros Hf. rewrite (handle_try_push_accepted p v Hf). apply Hgen.
  - intros p' H. unfold PublishingQueue.push, Queue.push in H.
    destruct (Queue.empty (Queue.buf (queue_ p))).
    + injection H as <-. apply Hgen.
    + destruct (length (Queue.buf (queue_ p)) <? Queue.capacity (queue_ p));
        [|discriminate].
      injection H as <-. apply Hgen.
Qed.

Lemma run_app (a b : list (Trace.action T)) : forall p,
  Trace.run (a ++ b) p =
  match Trace.run a p with
  | Done (f1, p1) =>
      match Trace.run b p1 with
      | Done (f2, p2) => Done (f1 ++ f2, p2)
      | AssertionFailed => AssertionFailed
      end
  | AssertionFailed => AssertionFailed
  end.
Proof.
  induction a as [|[x|n] a IH]; intros p; simpl.
  - destruct (Trace.run b p) as [[f2 p2]|]; reflexivity.
  - destruct (PublishingQueue.try_push p x) as [added p1]. rewrite IH.
    destruct (Trace.run a p1) as [[f1 p2]|]; [|reflexivity].
    destruct (Trace.run b p2) as [[f2 p3]|]; reflexivity.
  - destruct (Backend.pull n p) as [p1|]; [apply IH|reflexivity].
Qed.

Lemma run_pushes_with_room (values : list T) : forall p,
  Queue.buf (queue_ p) <> [] ->
  length (Queue.buf (queue_ p)) + length values <= Queue.capacity (queue_ p) ->
  exists p',
    Trace.run (map (@Trace.producer_try_push T) values) p
    = Done (repeat true (length values), p') /\
    Queue.buf (queue_ p') = Queue.buf (queue_ p) ++ values /\
    Queue.capacity (queue_ p') = Queue.capacity (queue_ p) /\
    Queue.cv (queue_ p') = Queue.cv (queue_ p) /\
    notify_hdl_ p' = notify_hdl_ p /\ super p' = super p.
Proof.
  induction values as [|x values IH]; intros p Hne Hle.
  - exists p. simpl. rewrite app_nil_r. repeat split.
  - simpl in Hle.
    assert (Hf : fst (PublishingQueue.try_push p x) = true).
    { unfold PublishingQueue.try_push, Queue.try_push.
      apply empty_false in Hne. rewrite Hne.
      replace (length (Queue.buf (queue_ p)) <? Queue.capacity (queue_ p)) with true
        by (symmetry; apply Nat.ltb_lt; lia).
      reflexivity. }
    pose proof (handle_try_push_accepted p x Hf) as Htp.
    apply empty_false in Hne. rewrite Hne in Htp.
    destruct (IH {| queue_ := Queue.emplace_back (queue_ p) x;
                    notify_hdl_ := notify_hdl_ p; super := super p |})
      as (p' & Hrun & Hbuf & Hcap & Hcv & Hnot & Hsup).
    + cbn [queue_ Queue.emplace_back Queue.buf].
      destruct (Queue.buf (queue_ p)); discriminate.
    + cbn [queue_ Queue.emplace_back Queue.buf Queue.capacity].
      rewrite length_app. cbn [length]. lia.
    + exists p'. cbn [map Trace.run]. rewrite Htp, Hrun.
      split; [reflexivity|].
      cbn [queue_ Queue.emplace_back Queue.buf Queue.capacity Queue.cv notify_hdl_ super]
        in Hbuf, Hcap, Hcv, Hnot, Hsup.
      rewrite Hbuf, <- app_assoc. repeat split; assumption.
Qed.

(** X10.  Round trip of a batch: on an empty buffer whose capacity holds
    them, pushing the values one after the other and then pulling as many
    accepts every one of them, calls [notify_event()] once (for the first)
    and broadcasts once, hands the base exactly those values in push order
    and leaves the buffer empty again. *)
Theorem batch_round_trip (values : list T) p :
  values <> [] ->
  Queue.buf (queue_ p) = [] ->
  length values <= Queue.capacity (queue_ p) ->
  Trace.run (map (@Trace.producer_try_push T) values
             ++ [Trace.consumer_pull (length values)]) p
  = Done (repeat true (length values),
          {| queue_ := {| Queue.capacity := Queue.capacity (queue_ p);
                          Queue.buf := [];
                          Queue.cv := notify_all (Queue.cv (queue_ p)) |};
             notify_hdl_ := notify_event (notify_hdl_ p);
             super := Backend.append_to_buf values (super p) |}).
Proof.
  intros Hne Hnil Hle. destruct values as [|x values]; [contradiction|].
  assert (Hf : fst (PublishingQueue.try_push p x) = true).
  { unfold PublishingQueue.try_push, Queue.try_push. rewrite Hnil. reflexivity. }
  pose proof (handle_try_push_accepted p x Hf) as Htp.
  rewrite Hnil in Htp. cbn [Queue.empty] in Htp.
  destruct (@run_pushes_with_room values
              {| queue_ := Queue.emplace_back (queue_ p) x;
                 notify_hdl_ := notify_event (notify_hdl_ p); super := super p |})
    as (p' & Hrun & Hbuf & Hcap & Hcv & Hnot & Hsup).
  - cbn [queue_ Queue.emplace_back Queue.buf]. rewrite Hnil. discriminate.
  - cbn [queue_ Queue.emplace_back Queue.buf Queue.capacity]. rewrite Hnil.
    cbn [app length] in *. lia.
  - cbn [queue_ Queue.emplace_back Queue.buf Queue.capacity Queue.cv notify_hdl_ super]
      in Hbuf, Hcap, Hcv, Hnot, Hsup.
    rewrite Hnil in Hbuf. cbn [app] in Hbuf.
    cbn [map app Trace.run]. rewrite Htp, run_app, Hrun. cbn [Trace.run].
    rewrite pull_positive by (cbn [length]; lia). cbv zeta. rewrite Hbuf.
    rewrite Nat.min_id, firstn_all, skipn_all.
    cbn [length Nat.ltb Nat.leb repeat]. rewrite app_nil_r, Hcap, Hcv, Hnot, Hsup.
    reflexivity.
Qed.
End Release.

(** ** Concrete instances *)

Lemma pull_empty_and_pull_all_witness :
  let p := {| queue_ := {| Queue.capacity := 3; Queue.buf := [7; 8]; Queue.cv := 0 |};
              notify_hdl_ := 1;
              super := FlowBase.mk_base 5 [6] [] (FlowBase.Active (error := unit)) |} in
  @Backend.pull nat unit unit _ FlowBase.spec_impl 5 p
  = Done {| queue_ := {| Queue.capacity := 3; Queue.buf := []; Queue.cv := 1 |};
            notify_hdl_ := 1;
            super := FlowBase.mk_base 5 [6; 7; 8] [] (FlowBase.Active (error := unit)) |}.
Proof.
  cbv zeta.
  apply (proj2 (@pull_empty_and_pull_all nat unit unit (FlowBase.base nat unit)
                  FlowBase.spec_impl 5
                  {| queue_ := {| Queue.capacity := 3; Queue.buf := [7; 8];
                                  Queue.cv := 0 |};
                     notify_hdl_ := 1;
                     super := FlowBase.mk_base 5 [6] []
                                (FlowBase.Active (error := unit)) |}
                  ltac:(lia))).
  - discriminate.
  - simpl. lia.
Defined.

Lemma pull_then_pull_witness :
  let p := {| queue_ := {| Queue.capacity := 4; Queue.buf := [1; 2; 3; 4]; Queue.cv := 0 |};
              notify_hdl_ := 1;
              super := FlowBase.mk_base 0 [] [] (FlowBase.Active (error := unit)) |} in
  exists p1 p2 p3,
    @Backend.pull nat unit unit _ FlowBase.spec_impl 1 p = Done p1 /\
    @Backend.pull nat unit unit _ FlowBase.spec_impl 2 p1 = Done p2 /\
    @Backend.pull nat unit unit _ FlowBase.spec_impl (1 + 2) p = Done p3 /\
    Queue.buf (queue_ p2) = Queue.buf (queue_ p3) /\
    FlowBase.buf_ (super p2) = FlowBase.buf_ (super p3) /\
    Queue.buf (queue_ p3) = [4] /\
    FlowBase.buf_ (super p3) = [1; 2; 3].
Proof.
  cbv zeta.
  apply (@pull_then_pull nat unit unit (FlowBase.base nat unit) FlowBase.spec_impl
           (@FlowBase.buf_ nat unit) (fun items b => eq_refl) 1 2
           {| queue_ := {| Queue.capacity := 4; Queue.buf := [1; 2; 3; 4];
                           Queue.cv := 0 |};
              notify_hdl_ := 1;
              super := FlowBase.mk_base 0 [] [] (FlowBase.Active (error := unit)) |});
    lia.
Defined.

Lemma accepted_items_conserved_witness :
  let p := {| queue_ := {| Queue.capacity := 1; Queue.buf := @nil nat; Queue.cv := 0 |};
              notify_hdl_ := 0;
              super := FlowBase.mk_base 0 [] [] (FlowBase.Active (error := unit)) |} in
  let acts := [Trace.producer_try_push 1; Trace.producer_try_push 2;
               Trace.consumer_pull 3; Trace.producer_try_push 3] in
  exists flags p',
    @Trace.run nat unit unit _ FlowBase.spec_impl acts p = Done (flags, p') /\
    length flags = 3 /\
    FlowBase.buf_ (super p') ++ Queue.buf (queue_ p')
    = [] ++ [] ++ Schedule.accepted [1; 2; 3] flags.
Proof.
  cbv zeta.
  apply (@accepted_items_conserved nat unit unit (FlowBase.base nat unit)
           FlowBase.spec_impl (@FlowBase.buf_ nat unit) (fun items b => eq_refl)
           [Trace.producer_try_push 1; Trace.producer_try_push 2;
            Trace.consumer_pull 3; Trace.producer_try_push 3]
           {| queue_ := {| Queue.capacity := 1; Queue.buf := @nil nat; Queue.cv := 0 |};
              notify_hdl_ := 0;
              super := FlowBase.mk_base 0 [] [] (FlowBase.Active (error := unit)) |}).
  simpl. intuition discriminate.
Defined.

Lemma buffer_bounded_for_every_capacity_witness :
  let p := {| queue_ := {| Queue.capacity := 0; Queue.buf := @nil nat; Queue.cv := 0 |};
              notify_hdl_ := 0;
              super := FlowBase.mk_base 0 [] [] (FlowBase.Active (error := unit)) |} in
  let acts := [Trace.producer_try_push 1; Trace.producer_try_push 2;
               Trace.consumer_pull 1] in
  exists flags p',
    @Trace.run nat unit unit _ FlowBase.spec_impl acts p = Done (flags, p') /\
    Schedule.roomy (queue_ p') /\
    Queue.capacity (queue_ p') = 0.
Proof.
  cbv zeta.
  apply (proj1 (@buffer_bounded_for_every_capacity nat unit unit (FlowBase.base nat unit)
           FlowBase.spec_impl
           [Trace.producer_try_push 1; Trace.producer_try_push 2;
            Trace.consumer_pull 1]
           {| queue_ := {| Queue.capacity := 0; Queue.buf := @nil nat; Queue.cv := 0 |};
              notify_hdl_ := 0;
              super := FlowBase.mk_base 0 [] [] (FlowBase.Active (error := unit)) |}
           9 ltac:(unfold Schedule.roomy; simpl; lia))).
  simpl. intuition discriminate.
Defined.


Lemma parked_push_released_by_pull_witness :
  let p := {| queue_ := {| Queue.capacity := 2; Queue.buf := [1; 2]; Queue.cv := 0 |};
              notify_hdl_ := 1;
              super := FlowBase.mk_base 0 [] [] (FlowBase.Active (error := unit)) |} in
  PublishingQueue.push_blocking
    [@Schedule.after nat unit unit _ FlowBase.spec_impl (Trace.consumer_pull 1)] p 3
  = Some (tt,
          {| queue_ := {| Queue.capacity := 2; Queue.buf := [2; 3]; Queue.cv := 1 |};
             notify_hdl_ := 1;
             super := FlowBase.mk_base 0 [1] [] (FlowBase.Active (error := unit)) |}).
Proof.
  cbv zeta.
  apply (@parked_push_released_by_pull nat unit unit (FlowBase.base nat unit)
           FlowBase.spec_impl
           {| queue_ := {| Queue.capacity := 2; Queue.buf := [1; 2]; Queue.cv := 0 |};
              notify_hdl_ := 1;
              super := FlowBase.mk_base 0 [] [] (FlowBase.Active (error := unit)) |}
           3 1 []).
  - lia.
  - unfold Schedule.roomy. simpl. lia.
  - reflexivity.
Defined.

Lemma parked_push_not_released_by_producers_witness :
  let p := {| queue_ := {| Queue.capacity := 1; Queue.buf := [1]; Queue.cv := 0 |};
              notify_hdl_ := 1;
              super := FlowBase.mk_base 0 [] [] (FlowBase.Active (error := unit)) |} in
  (forall x, PublishingQueue.try_push p x = (false, p)) /\
  PublishingQueue.push_blocking
    [fun s => s;
     @Schedule.after nat unit unit _ FlowBase.spec_impl (Trace.producer_try_push 5)]
    p 2 = None.
Proof.
  cbv zeta.
  apply (@parked_push_not_released_by_producers nat unit unit (FlowBase.base nat unit)
           FlowBase.spec_impl
           {| queue_ := {| Queue.capacity := 1; Queue.buf := [1]; Queue.cv := 0 |};
              notify_hdl_ := 1;
              super := FlowBase.mk_base 0 [] [] (FlowBase.Active (error := unit)) |}
           2).
  - reflexivity.
  - apply Forall_cons; [left; intros s; reflexivity|].
    apply Forall_cons; [right; exists 5; reflexivity|apply Forall_nil].
Defined.

Lemma accepted_push_clears_done_witness :
  let p := {| queue_ := {| Queue.capacity := 1; Queue.buf := @nil nat; Queue.cv := 0 |};
              notify_hdl_ := 0;
              super := FlowBase.mk_base 0 [] [] (FlowBase.Draining (error := unit)) |} in
  @Backend.done nat unit unit _ FlowBase.spec_impl p = true /\
  @Backend.done nat unit unit _ FlowBase.spec_impl
    (snd (PublishingQueue.try_push p 4)) = false.
Proof.
  cbv zeta. split; [reflexivity|].
  apply (proj1 (@accepted_push_clears_done nat unit unit (FlowBase.base nat unit)
                  FlowBase.spec_impl
                  {| queue_ := {| Queue.capacity := 1; Queue.buf := @nil nat;
                                  Queue.cv := 0 |};
                     notify_hdl_ := 0;
                     super := FlowBase.mk_base 0 [] []
                                (FlowBase.Draining (error := unit)) |} 4)).
  reflexivity.
Defined.

Lemma batch_round_trip_witness :
  let p := {| queue_ := {| Queue.capacity := 3; Queue.buf := @nil nat; Queue.cv := 0 |};
              notify_hdl_ := 0;
              super := FlowBase.mk_base 0 [] [] (FlowBase.Active (error := unit)) |} in
  @Trace.run nat unit unit _ FlowBase.spec_impl
    [Trace.producer_try_push 1; Trace.producer_try_push 2; Trace.producer_try_push 3;
     Trace.consumer_pull 3] p
  = Done ([true; true; true],
          {| queue_ := {| Queue.capacity := 3; Queue.buf := []; Queue.cv := 1 |};
             notify_hdl_ := 1;
             super := FlowBase.mk_base 0 [1; 2; 3] []
                        (FlowBase.Active (error := unit)) |}).
Proof.
  cbv zeta.
  apply (@batch_round_trip nat unit unit (FlowBase.base nat unit) FlowBase.spec_impl
           [1; 2; 3]
           {| queue_ := {| Queue.capacity := 3; Queue.buf := @nil nat; Queue.cv := 0 |};
              notify_hdl_ := 0;
              super := FlowBase.mk_base 0 [] [] (FlowBase.Active (error := unit)) |}).
  - discriminate.
  - reflexivity.
  - simpl. lia.
Defined.
